(** * Seed-corpus generator of the AFL harness (crates/mun_compiler/afl)

    A shallow embedding of [generate_in_files.py]: the script walks a
    directory tree for [*.snap] snapshot files, pulls the [expression]
    field out of each one with a regular expression and writes the
    snippets to numbered files of an output folder.

    Python text is modelled by [string]; the regular expression and the
    two [str.replace] calls only ever compare characters with ASCII
    constants, so the script treats every other code point alike. *)

From Stdlib Require Import Ascii String.
From stdpp Require Import gmap strings list fin_maps pretty.

Local Open Scope string_scope.
Local Open Scope list_scope.
Local Open Scope nat_scope.

(** ** Characters and constants of the script *)

(** The line feed, the only character the regex dot refuses. *)
Definition LF : ascii := "010"%char.

(** The double quote. *)
Definition DQUOTE : ascii := "034"%char.

(** The one-character strings used by the script. *)
Definition newline : string := String LF "".
Definition quote : string := String DQUOTE "".

(** The two-character text: a backslash followed by the letter n. *)
Definition escaped_newline : string := "\n".

(** The field label the regex starts with and the first [replace] removes:
    the word, a colon, a blank and the opening quote. *)
Definition label : string := "expression: " +:+ quote.

(** The alternation [(pub|fn|struct)], in the order the regex tries it. *)
Definition keywords : list string := ["pub"; "fn"; "struct"].

(** ** The regular expression *)

(** A literal at the head of the subject: what is left after it. *)
Fixpoint strip_prefix (p s : string) : option string :=
  match p with
  | "" => Some s
  | String a p' =>
      match s with
      | "" => None
      | String b s' => if Ascii.eqb a b then strip_prefix p' s' else None
      end
  end.

(** The alternation: the first alternative found at the head of the
    subject, with what follows it. *)
Fixpoint alternation (ks : list string) (s : string) : option (string * string) :=
  match ks with
  | [] => None
  | k :: ks' =>
      match strip_prefix k s with
      | Some r => Some (k, r)
      | None => alternation ks' s
      end
  end.

(** The greedy [.*] without DOTALL: the longest run of characters other
    than the line feed. *)
Fixpoint dot_star (s : string) : string :=
  match s with
  | "" => ""
  | String c s' => if Ascii.eqb c LF then "" else String c (dot_star s')
  end.

(** The pattern of the script tried at the head of the subject: the label,
    then the group [(pub|fn|struct)], then [.*], all inside an outer group.
    The result holds the two groups, the outer one being the whole match.
    The tail [.*] cannot fail, so the first alternative that fits is kept. *)
Definition match_at (s : string) : option (string * string) :=
  match strip_prefix label s with
  | None => None
  | Some r =>
      match alternation keywords r with
      | None => None
      | Some (kw, r') => Some (label +:+ kw +:+ dot_star r', kw)
      end
  end.

(** [re.findall]: every match from left to right, the search resuming where
    the previous match ended.  [skip] counts the characters of the current
    match still to be passed over, which keeps the recursion structural. *)
Fixpoint findall_from (skip : nat) (s : string) : list (string * string) :=
  match s with
  | "" => []
  | String _ s' =>
      match skip with
      | S k => findall_from k s'
      | O =>
          match match_at s with
          | Some g => g :: findall_from (String.length (fst g) - 1) s'
          | None => findall_from 0 s'
          end
      end
  end.

Definition findall (data : string) : list (string * string) :=
  findall_from 0 data.

(** ** String methods *)

(** [s.startswith(p)], the test [str.replace] makes at each position. *)
Fixpoint starts_with (p s : string) : bool :=
  match p with
  | "" => true
  | String a p' =>
      match s with
      | "" => false
      | String b s' => Ascii.eqb a b && starts_with p' s'
      end
  end.

(** [s.replace(old, new)] for a non-empty [old] (both calls of the script):
    occurrences are replaced from left to right without overlap, and the
    text put in is not searched again. *)
Fixpoint replace_from (skip : nat) (old new s : string) : string :=
  match s with
  | "" => ""
  | String c s' =>
      match skip with
      | S k => replace_from k old new s'
      | O =>
          if starts_with old s
          then new +:+ replace_from (String.length old - 1) old new s'
          else String c (replace_from 0 old new s')
      end
  end.

Definition replace (old new s : string) : string := replace_from 0 old new s.

(** The slice [s[0:-1]]: everything but the last character, and the empty
    string when there is none. *)
Fixpoint slice_0_m1 (s : string) : string :=
  match s with
  | "" => ""
  | String c s' =>
      match s' with
      | "" => ""
      | String _ _ => String c (slice_0_m1 s')
      end
  end.

(** ** extract_snippet *)

(** The text the slice is applied to: the label taken out, the escaped
    newlines turned into line feeds. *)
Definition cleaned (m : string) : string :=
  replace escaped_newline newline (replace label "" m).

(** [extract_snippet(data)]; falling off the end of the function is [None]. *)
Definition extract_snippet (data : string) : option string :=
  match findall data with
  | [] => None
  | g :: _ => Some (slice_0_m1 (cleaned (fst g)))
  end.

(** The character the slice drops. *)
Fixpoint last_char (s : string) : option ascii :=
  match s with
  | "" => None
  | String c s' =>
      match s' with
      | "" => Some c
      | String _ _ => last_char s'
      end
  end.

Definition trimmed_char (data : string) : option ascii :=
  match findall data with
  | [] => None
  | g :: _ => last_char (cleaned (fst g))
  end.

(** ** Vocabulary of the statements *)

(** A character occurs in a text. *)
Fixpoint mem_char (c : ascii) (s : string) : bool :=
  match s with
  | "" => false
  | String d s' => Ascii.eqb d c || mem_char c s'
  end.

(** A text occurs inside another one. *)
Definition occurs_in (old s : string) : Prop :=
  ∃ a b, s = a +:+ old +:+ b.

(** The pattern finds a field at the head of a text: the label, then one
    of the keywords. *)
Definition starts_field (s : string) : Prop :=
  ∃ kw r, kw ∈ keywords ∧ s = label +:+ kw +:+ r.

(** The pattern finds a field somewhere in a text. *)
Definition has_field (data : string) : Prop :=
  ∃ pre s, data = pre +:+ s ∧ starts_field s.

(** No field starts inside [pre] when [pre] is followed by [s]. *)
Definition no_field_inside (pre s : string) : Prop :=
  ∀ p1 p2, pre = p1 +:+ p2 → p2 ≠ "" → ¬ starts_field (p2 +:+ s).

(** A text stops at the end of its line: nothing follows, or a line feed. *)
Definition at_line_end (post : string) : Prop :=
  post = "" ∨ ∃ t, post = String LF t.

(** The first match of the pattern, as the leftmost position where it fits. *)
Fixpoint first_match (s : string) : option (string * string) :=
  match s with
  | "" => None
  | String _ s' =>
      match match_at s with
      | Some g => Some g
      | None => first_match s'
      end
  end.

(** ** The file system and the run *)

(** The platform under the script: which entries lie in the tree rooted at
    a folder, and the order in which a recursive walk yields a set of
    entries.  The order is the platform's own and every entry is yielded
    once; two walks that have the same entries to yield go the same way. *)
Class Platform := {
  under : string → string → bool;
  traversal : gset string → list string;
  traversal_perm : ∀ X : gset string, traversal X ≡ₚ elements X
}.

(** The world the script acts on: the regular files with their text and the
    directories, both named by their path, and the text sent to the
    standard output.  A path names one entry: links are not modelled, nor
    are access rights.  The text of a file is what [read] returns and what
    [write] is given, as on a platform whose line ending is the line
    feed. *)
Record world := World {
  files : gmap string string;
  dirs : gset string;
  stdout : string
}.

(** The exceptions [open] raises. *)
Inductive error :=
  | FileNotFoundError (path : string)
  | IsADirectoryError (path : string)
  | NotADirectoryError (path : string).

(** A call returns a value or raises; what it did to the world before
    raising stays done. *)
Inductive outcome (A : Type) :=
  | Returned (a : A)
  | Raised (e : error).
Arguments Returned {A} a.
Arguments Raised {A} e.

Definition M (A : Type) : Type := world → outcome A * world.

(** The monad of the script, with stdpp's notations for sequencing. *)
#[global] Instance M_ret : MRet M := λ A a w, (Returned a, w).

#[global] Instance M_bind : MBind M := λ A B k m w,
  match m w with
  | (Returned a, w') => k a w'
  | (Raised e, w') => (Raised e, w')
  end.

(** [open(path)] for reading, followed by [f.read()]. *)
Definition open_read (path : string) : M string := λ w,
  if decide (path ∈ dirs w) then (Raised (IsADirectoryError path), w)
  else
    match files w !! path with
    | Some data => (Returned data, w)
    | None => (Raised (FileNotFoundError path), w)
    end.

(** [open(path)] for writing: the file is created, or emptied when it exists.
    The folder it goes into has to be there: a regular file in its place
    is not a directory, and nothing in its place is not found. *)
Definition open_write (parent path : string) : M unit := λ w,
  if decide (path ∈ dirs w) then (Raised (IsADirectoryError path), w)
  else if decide (parent ∈ dirs w)
  then (Returned tt, World (<[path := ""]> (files w)) (dirs w) (stdout w))
  else if decide (is_Some (files w !! parent))
  then (Raised (NotADirectoryError path), w)
  else (Raised (FileNotFoundError path), w).

(** [f.write(data)] on a file open for writing: the text goes after what
    the file holds. *)
Definition write (path data : string) : M unit := λ w,
  (Returned tt,
   World (<[path := default "" (files w !! path) +:+ data]> (files w))
         (dirs w) (stdout w)).

(** [print(s)]. *)
Definition print (s : string) : M unit := λ w,
  (Returned tt, World (files w) (dirs w) (stdout w +:+ s +:+ newline)).

(** The glob [*.snap] on the name of an entry.  The suffix holds no
    separator, so the name ends with it exactly when the path does. *)
Fixpoint ends_with (suffix s : string) : bool :=
  String.eqb s suffix ||
  match s with
  | "" => false
  | String _ s' => ends_with suffix s'
  end.

Definition is_snap `{Platform} (folder path : string) : bool :=
  under folder path && ends_with ".snap" path.

(** The entries [Path(folder).rglob] has to offer: files and directories
    alike. *)
Definition snap_entries `{Platform} (folder : string) (w : world) : gset string :=
  filter (λ path, is_snap folder path = true) (dom (files w) ∪ dirs w).

(** [find_snaps(folder)].  The generator is consumed by the reading loop,
    which changes no entry, so that the walk is taken at once. *)
Definition find_snaps `{Platform} (folder : string) : M (list string) := λ w,
  (Returned (traversal (snap_entries folder w)), w).

(** The truth value of [snippet] in [if snippet]: [None] and the empty
    string are false. *)
Definition truthy (snippet : option string) : bool :=
  match snippet with
  | Some (String _ _) => true
  | _ => false
  end.

(** The first loop of [generate_files].  The value appended is the result
    of a second call of [extract_snippet] on the same text. *)
Fixpoint read_snippets (paths : list string) (snippets : list string) : M (list string) :=
  match paths with
  | [] => mret snippets
  | path :: paths' =>
      data ← open_read path;
      let snippet := extract_snippet data in
      if truthy snippet
      then read_snippets paths' (snippets ++ option_list (extract_snippet data))
      else read_snippets paths' snippets
  end.

(** The name of an output file: [format] on the folder and the index. *)
Definition out_path (out_folder : string) (index : nat) : string :=
  out_folder +:+ "/" +:+ pretty index.

(** The second loop of [generate_files], over [enumerate(snippets)]. *)
Fixpoint write_snippets (out_folder : string) (index : nat) (snippets : list string) : M unit :=
  match snippets with
  | [] => mret tt
  | snippet :: snippets' =>
      print snippet ;;
      open_write out_folder (out_path out_folder index) ;;
      print snippet ;;
      write (out_path out_folder index) snippet ;;
      write_snippets out_folder (S index) snippets'
  end.

(** The body of [generate_files] once the walk is known. *)
Definition generate_from (paths : list string) (out_folder : string) : M unit :=
  snippets ← read_snippets paths [];
  write_snippets out_folder 0 snippets.

(** [generate_files(folder, out_folder)]. *)
Definition generate_files `{Platform} (folder out_folder : string) : M unit :=
  paths ← find_snaps folder;
  generate_from paths out_folder.

(** A platform to run examples on: entries are under a folder when their
    path starts with the folder and a separator, and the walk goes in the
    order of [elements]. *)
#[local] Instance prefix_platform : Platform := {|
  under := λ folder path, starts_with (folder +:+ "/") path;
  traversal := elements;
  traversal_perm := λ X, reflexivity (elements X)
|}.

(** ** Vocabulary of the statements on the run *)

(** The snippet a snapshot file contributes, if any. *)
Definition snippet_of (w : world) (path : string) : option string :=
  match files w !! path with
  | Some data => if truthy (extract_snippet data) then extract_snippet data else None
  | None => None
  end.

(** The files after the second loop: one binding per snippet. *)
Fixpoint emit_files (out_folder : string) (index : nat) (snippets : list string)
    (m : gmap string string) : gmap string string :=
  match snippets with
  | [] => m
  | snippet :: snippets' =>
      emit_files out_folder (S index) snippets' (<[out_path out_folder index := snippet]> m)
  end.

(** The removal of the label at the head only, which the comment of the
    script describes. *)
Definition extract_snippet_prefix_only (data : string) : option string :=
  match findall data with
  | [] => None
  | g :: _ =>
      match strip_prefix label (fst g) with
      | Some body => Some (slice_0_m1 (replace escaped_newline newline body))
      | None => None
      end
  end.

(** A small tree to run examples on: three snapshot files, one without
    field, and an output folder that already holds a file. *)
Definition demo_world : world :=
  World (<["t/a.snap" := label +:+ "pub fn foo() {\n  1\n}" +:+ quote]>
         (<["t/b.snap" := "source: x"]>
         (<["t/c.snap" := "x" +:+ newline +:+ label +:+ "fn a" +:+ quote]>
         (<["in/0" := "stale"]> ∅))))
        {["in"; "t"]} "".

(** The unescaping step alone: every escaped newline becomes a line feed. *)
Definition unescape (s : string) : string :=
  replace escaped_newline newline s.

(** A field of the expected shape somewhere in a text: the label, a quoted
    content that begins with a keyword, the closing quote. *)
Definition field_in (data pre content post : string) : Prop :=
  data = pre +:+ label +:+ content +:+ quote +:+ post
  ∧ ∃ kw r, kw ∈ keywords ∧ content = kw +:+ r.

(** Decision procedures for the side conditions, to check them on
    examples. *)
Fixpoint occursb (old s : string) : bool :=
  starts_with old s ||
  match s with
  | "" => false
  | String _ s' => occursb old s'
  end.

Fixpoint no_match_inside (pre s : string) : bool :=
  match pre with
  | "" => true
  | String _ pre' =>
      match match_at (pre +:+ s) with
      | Some _ => false
      | None => no_match_inside pre' s
      end
  end.

(** The number of snippets the second loop writes before it stops, given
    the directories that exist. *)
Fixpoint completed (out_folder : string) (index : nat) (snippets : list string)
    (D : gset string) : nat :=
  match snippets with
  | [] => 0
  | _ :: snippets' =>
      if decide (out_path out_folder index ∈ D) then 0
      else if decide (out_folder ∈ D)
      then S (completed out_folder (S index) snippets' D)
      else 0
  end.

(** ** The script as a program *)

(** The call under [__main__]. *)
Definition main `{Platform} : M unit :=
  generate_files "../../" "in".

(** ** Vocabulary of further statements *)

(** The number of occurrences of a character in a text. *)
Fixpoint count_char (c : ascii) (s : string) : nat :=
  match s with
  | "" => 0
  | String d s' => (if Ascii.eqb d c then 1 else 0) + count_char c s'
  end.

(** What the second loop sends to the standard output: every snippet
    twice, each time on a line of its own. *)
Fixpoint printed (snippets : list string) : string :=
  match snippets with
  | [] => ""
  | snippet :: snippets' =>
      snippet +:+ newline +:+ snippet +:+ newline +:+ printed snippets'
  end.

(** What the first [n] output names hold. *)
Definition outputs (out_folder : string) (n : nat) (w : world) : list (option string) :=
  (λ i, files w !! out_path out_folder i) <$> seq 0 n.

(** A tree where a directory bears the name of a snapshot. *)
Definition snapdir_world : world :=
  World (<["t/a.snap" := label +:+ "fn a" +:+ quote]> ∅)
        {["in"; "t"; "t/d.snap"]} "".

(** A tree where the second output name is taken by a directory. *)
Definition blocked_world : world :=
  World (<["t/a.snap" := label +:+ "pub b" +:+ quote]>
         (<["t/c.snap" := label +:+ "fn a" +:+ quote]> ∅))
        {["in"; "t"; "in/1"]} "".

(** A platform that walks the other way round. *)
Definition reverse_platform : Platform := {|
  under := λ folder path, starts_with (folder +:+ "/") path;
  traversal := λ X, reverse (elements X);
  traversal_perm := λ X, reverse_Permutation (elements X)
|}.

(** A tree whose only snapshot has no field, and no output folder. *)
Definition quiet_world : world :=
  World (<["t/b.snap" := "source: x"]> ∅) {["t"]} "".

(** A tree where a regular file bears the name of the output folder. *)
Definition file_for_folder_world : world :=
  World (<["t/a.snap" := label +:+ "fn a" +:+ quote]>
         (<["in" := "not a folder"]> ∅))
        {["t"]} "".
(** ** Facts on strings *)

Local Arguments String.append : simpl nomatch.
Local Arguments Ascii.eqb : simpl never.

Lemma str_app_nil_r (s : string) : s +:+ "" = s.
Proof. induction s as [|c s IH]; simpl; [done | by rewrite IH]. Qed.

Lemma str_app_assoc (a b c : string) : (a +:+ b) +:+ c = a +:+ b +:+ c.
Proof. induction a as [|x a IH]; simpl; [done | by rewrite IH]. Qed.

Lemma str_app_length (a b : string) :
  String.length (a +:+ b) = String.length a + String.length b.
Proof. induction a as [|x a IH]; simpl; [done | by rewrite IH]. Qed.

Lemma mem_char_app (c : ascii) (a b : string) :
  mem_char c (a +:+ b) = mem_char c a || mem_char c b.
Proof.
  induction a as [|x a IH]; simpl; [done|].
  rewrite IH. by destruct (Ascii.eqb x c).
Qed.

Lemma strip_prefix_app (p s : string) : strip_prefix p (p +:+ s) = Some s.
Proof.
  induction p as [|a p IH]; simpl; [done|].
  by rewrite Ascii.eqb_refl.
Qed.

Lemma strip_prefix_Some (p s r : string) :
  strip_prefix p s = Some r → s = p +:+ r.
Proof.
  revert s. induction p as [|a p IH]; intros s H; simpl in *.
  - by injection H.
  - destruct s as [|b s]; [done|].
    destruct (Ascii.eqb_spec a b) as [->|]; [|done].
    simpl. f_equal. by apply IH.
Qed.

Lemma starts_with_app (p s : string) : starts_with p (p +:+ s) = true.
Proof.
  induction p as [|a p IH]; simpl; [done|].
  by rewrite Ascii.eqb_refl.
Qed.

Lemma starts_with_true (p s : string) :
  starts_with p s = true → ∃ r, s = p +:+ r.
Proof.
  revert s. induction p as [|a p IH]; intros s H.
  - by exists s.
  - destruct s as [|b s]; simpl in H; [done|].
    destruct (Ascii.eqb_spec a b) as [->|]; [|done].
    destruct (IH _ H) as [r ->]. by exists r.
Qed.

Lemma slice_0_m1_snoc (s : string) (c : ascii) :
  slice_0_m1 (s +:+ String c "") = s.
Proof.
  induction s as [|x s IH]; [done|].
  change (String x s +:+ String c "") with (String x (s +:+ String c "")).
  simpl. rewrite IH. by destruct s.
Qed.

Lemma last_char_snoc (s : string) (c : ascii) :
  last_char (s +:+ String c "") = Some c.
Proof.
  induction s as [|x s IH]; [done|].
  change (String x s +:+ String c "") with (String x (s +:+ String c "")).
  simpl. rewrite IH. by destruct s.
Qed.

(** ** Facts on [replace] *)

Lemma replace_from_skip (old new a s : string) :
  replace_from (String.length a) old new (a +:+ s) = replace old new s.
Proof. induction a as [|x a IH]; simpl; [done | exact IH]. Qed.

(** An occurrence at the head is replaced and the search goes on after it. *)
Lemma replace_head (old new s : string) :
  old ≠ "" → replace old new (old +:+ s) = new +:+ replace old new s.
Proof.
  intros Hne. destruct old as [|c old]; [done|].
  unfold replace at 1.
  change (String c old +:+ s) with (String c (old +:+ s)).
  cbn [replace_from].
  change (String c (old +:+ s)) with (String c old +:+ s).
  rewrite starts_with_app. f_equal.
  replace (String.length (String c old) - 1) with (String.length old)
    by (simpl; lia).
  apply replace_from_skip.
Qed.

(** A text without occurrence is left as it is. *)
Lemma replace_absent (old new s : string) :
  ¬ occurs_in old s → replace old new s = s.
Proof.
  unfold replace. induction s as [|c s IH]; intros Hno; [done|].
  cbn [replace_from].
  destruct (starts_with old (String c s)) eqn:Hp.
  - destruct (starts_with_true _ _ Hp) as [r Hr].
    destruct Hno. by exists "", r.
  - f_equal. apply IH. intros (a & b & ->).
    apply Hno. by exists (String c a), b.
Qed.

(** The escape test looks at two characters only. *)
Lemma starts_with_escape (x y : ascii) (s : string) :
  starts_with escaped_newline (String x (String y s))
  = Ascii.eqb "\" x && Ascii.eqb "n" y.
Proof. cbn [starts_with escaped_newline]. by rewrite andb_true_r. Qed.

Lemma starts_with_escape_short (x : ascii) :
  starts_with escaped_newline (String x "") = false.
Proof. cbn [starts_with escaped_newline]. by rewrite andb_false_r. Qed.

(** The unescaping leaves a last character alone, unless it is the letter
    that completes an escape. *)
Lemma unescape_snoc_from (k : nat) (s : string) (c : ascii) :
  c ≠ "n"%char → k ≤ String.length s →
  replace_from k escaped_newline newline (s +:+ String c "")
  = replace_from k escaped_newline newline s +:+ String c "".
Proof.
  intros Hc. revert k. induction s as [|x s IH]; intros k Hk.
  - assert (k = 0) as -> by (simpl in Hk; lia).
    change ("" +:+ String c "") with (String c "").
    cbn [replace_from]. by rewrite starts_with_escape_short.
  - change (String x s +:+ String c "") with (String x (s +:+ String c "")).
    destruct k as [|k]; cbn [replace_from].
    + destruct s as [|y s].
      * change ("" +:+ String c "") with (String c "").
        rewrite starts_with_escape, starts_with_escape_short.
        destruct (Ascii.eqb_spec "n" c) as [<-|_]; [done|].
        rewrite andb_false_r. cbn [replace_from].
        by rewrite starts_with_escape_short.
      * change (String y s +:+ String c "")
          with (String y (s +:+ String c "")).
        rewrite !starts_with_escape.
        change (String y (s +:+ String c ""))
          with (String y s +:+ String c "").
        destruct (Ascii.eqb "\" x && Ascii.eqb "n" y).
        -- cbn [String.length escaped_newline Nat.sub].
           rewrite IH; [done | simpl; lia].
        -- rewrite IH by lia. done.
    + apply IH. simpl in Hk. lia.
Qed.

Lemma unescape_snoc (s : string) (c : ascii) :
  c ≠ "n"%char →
  replace escaped_newline newline (s +:+ String c "")
  = replace escaped_newline newline s +:+ String c "".
Proof. intros Hc. apply unescape_snoc_from; [done | lia]. Qed.

(** A character that cannot open an occurrence is kept. *)
Lemma replace_keep_head (a c : ascii) (old new s : string) :
  a ≠ c →
  replace (String a old) new (String c s)
  = String c (replace (String a old) new s).
Proof.
  intros Hne. unfold replace. cbn [replace_from starts_with].
  by destruct (Ascii.eqb_spec a c).
Qed.

(** Taking text out brings no new character in. *)
Lemma mem_char_remove_from (k : nat) (c : ascii) (old s : string) :
  mem_char c s = false → mem_char c (replace_from k old "" s) = false.
Proof.
  revert k. induction s as [|x s IH]; intros k Hs; [done|].
  simpl in Hs. apply orb_false_elim in Hs as [Hx Hs].
  destruct k as [|k]; cbn [replace_from]; [|by apply IH].
  destruct (starts_with old (String x s)).
  - change ("" +:+ ?t) with t. by apply IH.
  - simpl. rewrite Hx. by apply IH.
Qed.

Lemma mem_char_slice (c : ascii) (s : string) :
  mem_char c s = false → mem_char c (slice_0_m1 s) = false.
Proof.
  induction s as [|x s IH]; intros Hs; [done|].
  simpl in Hs. apply orb_false_elim in Hs as [Hx Hs].
  destruct s as [|y s]; [done|].
  change (slice_0_m1 (String x (String y s)))
    with (String x (slice_0_m1 (String y s))).
  simpl mem_char at 1. rewrite Hx. by apply IH.
Qed.

(** ** Facts on the pattern *)

Lemma dot_star_app_lf (r t : string) :
  dot_star (r +:+ String LF t) = dot_star r.
Proof.
  induction r as [|c r IH]; simpl.
  - done.
  - destruct (Ascii.eqb c LF); [done | by rewrite IH].
Qed.

Lemma dot_star_no_lf (a b : string) :
  mem_char LF a = false → dot_star (a +:+ b) = a +:+ dot_star b.
Proof.
  induction a as [|c a IH]; intros Ha; [done|].
  simpl in Ha. apply orb_false_elim in Ha as [Hc Ha].
  simpl. rewrite Hc. by rewrite IH.
Qed.

Lemma dot_star_line (a post : string) :
  mem_char LF a = false → at_line_end post → dot_star (a +:+ post) = a.
Proof.
  intros Ha [->|[t ->]].
  - rewrite str_app_nil_r. rewrite <- (str_app_nil_r a) at 1.
    rewrite dot_star_no_lf by done. simpl. apply str_app_nil_r.
  - rewrite dot_star_app_lf. rewrite <- (str_app_nil_r a) at 1.
    rewrite dot_star_no_lf by done. simpl. apply str_app_nil_r.
Qed.

Lemma dot_star_mem_lf (s : string) : mem_char LF (dot_star s) = false.
Proof.
  induction s as [|c s IH]; simpl; [done|].
  destruct (Ascii.eqb c LF) eqn:Hc; [done|].
  simpl. by rewrite Hc.
Qed.

Lemma dot_star_split (s : string) :
  ∃ post, s = dot_star s +:+ post ∧ at_line_end post.
Proof.
  induction s as [|c s (post & IH & Hpost)]; simpl.
  - exists "". split; [done | by left].
  - destruct (Ascii.eqb_spec c LF) as [->|Hc].
    + exists (String LF s). split; [done | right; by exists s].
    + exists post. split; [|done]. simpl. by rewrite <- IH.
Qed.

Lemma keywords_no_lf (kw : string) : kw ∈ keywords → mem_char LF kw = false.
Proof.
  unfold keywords. rewrite !elem_of_cons, elem_of_nil.
  by intros [->|[->|[->|[]]]].
Qed.

Lemma label_no_lf : mem_char LF label = false.
Proof. done. Qed.

Lemma label_nonempty : label ≠ "".
Proof. by compute. Qed.

Lemma alternation_Some (ks : list string) (s k r : string) :
  alternation ks s = Some (k, r) → k ∈ ks ∧ s = k +:+ r.
Proof.
  induction ks as [|k0 ks IH]; simpl; [done|].
  destruct (strip_prefix k0 s) as [r0|] eqn:H0.
  - intros [= <- <-]. split; [by left | by apply strip_prefix_Some].
  - intros H. destruct (IH H) as [Hin Hs]. split; [by right | done].
Qed.

Lemma alternation_None (ks : list string) (s k r : string) :
  alternation ks s = None → k ∈ ks → s ≠ k +:+ r.
Proof.
  induction ks as [|k0 ks IH]; simpl; [by intros _ ?%elem_of_nil|].
  destruct (strip_prefix k0 s) as [r0|] eqn:H0; [done|].
  intros H [->|Hin]%elem_of_cons; [|by apply IH].
  intros ->. by rewrite strip_prefix_app in H0.
Qed.

(** What a match at the head looks like: the text up to the end of the
    line, and the keyword that follows the label. *)
Lemma match_at_Some (s : string) (g : string * string) :
  match_at s = Some g →
  ∃ kw r, kw ∈ keywords ∧ s = label +:+ kw +:+ r ∧ g = (dot_star s, kw).
Proof.
  unfold match_at.
  destruct (strip_prefix label s) as [r|] eqn:Hl; [|done].
  apply strip_prefix_Some in Hl as ->.
  destruct (alternation keywords r) as [[kw r']|] eqn:Ha; [|done].
  apply alternation_Some in Ha as [Hkw ->].
  intros [= <-]. exists kw, r'. split; [done|]. split; [done|].
  f_equal. rewrite dot_star_no_lf by apply label_no_lf.
  by rewrite dot_star_no_lf by by apply keywords_no_lf.
Qed.

Lemma match_at_None (s : string) : match_at s = None → ¬ starts_field s.
Proof.
  unfold match_at. intros H (kw & r & Hkw & ->).
  rewrite strip_prefix_app in H.
  destruct (alternation keywords (kw +:+ r)) as [[k r']|] eqn:Ha; [done|].
  by eapply alternation_None.
Qed.

Lemma match_at_starts (s : string) :
  starts_field s → ∃ kw, kw ∈ keywords ∧ match_at s = Some (dot_star s, kw).
Proof.
  intros Hs. destruct (match_at s) as [g|] eqn:Hm.
  - destruct (match_at_Some _ _ Hm) as (kw & r & Hkw & _ & ->). by exists kw.
  - by destruct (match_at_None _ Hm).
Qed.

(** A line feed and what follows it never take part in a match. *)
Lemma strip_prefix_app_r (p s r x : string) :
  strip_prefix p s = Some r → strip_prefix p (s +:+ x) = Some (r +:+ x).
Proof. intros ->%strip_prefix_Some. by rewrite str_app_assoc, strip_prefix_app. Qed.

Lemma strip_prefix_app_lf (p s t : string) :
  mem_char LF p = false → strip_prefix p s = None →
  strip_prefix p (s +:+ String LF t) = None.
Proof.
  revert s. induction p as [|a p IH]; intros s Hp Hs; [done|].
  simpl in Hp. apply orb_false_elim in Hp as [Ha Hp].
  destruct s as [|b s]; simpl in *.
  - by rewrite Ha.
  - destruct (Ascii.eqb a b); [by apply IH | done].
Qed.

Lemma alternation_app_lf (ks : list string) (s t : string) :
  (∀ k, k ∈ ks → mem_char LF k = false) →
  alternation ks (s +:+ String LF t)
  = (λ g, (fst g, snd g +:+ String LF t)) <$> alternation ks s.
Proof.
  intros Hks. induction ks as [|k ks IH]; simpl; [done|].
  destruct (strip_prefix k s) as [r|] eqn:Hk.
  - by rewrite (strip_prefix_app_r _ _ _ _ Hk).
  - rewrite strip_prefix_app_lf; [|apply Hks; by left|done].
    apply IH. intros k' Hk'. apply Hks. by right.
Qed.

Lemma match_at_app_lf (s t : string) :
  match_at (s +:+ String LF t) = match_at s.
Proof.
  unfold match_at.
  destruct (strip_prefix label s) as [r|] eqn:Hl.
  - rewrite (strip_prefix_app_r _ _ _ _ Hl).
    rewrite alternation_app_lf by apply keywords_no_lf.
    destruct (alternation keywords r) as [[kw r']|]; simpl; [|done].
    by rewrite dot_star_app_lf.
  - by rewrite strip_prefix_app_lf by done.
Qed.

(** ** Facts on [findall] *)

Lemma findall_from_skip (a s : string) :
  findall_from (String.length a) (a +:+ s) = findall s.
Proof. induction a as [|x a IH]; simpl; [done | exact IH]. Qed.

(** The first element of the list is the leftmost match. *)
Lemma head_findall (s : string) : head (findall s) = first_match s.
Proof.
  unfold findall. induction s as [|c s IH]; [done|].
  cbn [findall_from first_match].
  by destruct (match_at (String c s)).
Qed.

Lemma first_match_here (pre s : string) :
  no_field_inside pre s → starts_field s →
  first_match (pre +:+ s) = match_at s.
Proof.
  induction pre as [|c pre IH]; intros Hno Hs.
  - change ("" +:+ s) with s.
    destruct (match_at_starts _ Hs) as (kw & _ & Hm).
    destruct s as [|c s]; [done|].
    cbn [first_match]. by rewrite Hm.
  - change (String c pre +:+ s) with (String c (pre +:+ s)).
    cbn [first_match].
    destruct (match_at (String c (pre +:+ s))) as [g|] eqn:Hm.
    + destruct (match_at_Some _ _ Hm) as (kw & r & Hkw & Heq & _).
      destruct (Hno "" (String c pre)); [done..|].
      by exists kw, r.
    + apply IH; [|done].
      intros p1 p2 -> Hp2. by apply (Hno (String c p1) p2).
Qed.

Lemma first_match_None (data : string) :
  first_match data = None ↔ ¬ has_field data.
Proof.
  split.
  - intros Hn (pre & s & -> & Hs).
    induction pre as [|c pre IH].
    + change ("" +:+ s) with s in Hn.
      destruct (match_at_starts _ Hs) as (kw & _ & Hm).
      destruct s as [|c s]; [done|].
      simpl in Hn. by rewrite Hm in Hn.
    + apply IH.
      change (String c pre +:+ s) with (String c (pre +:+ s)) in Hn.
      cbn [first_match] in Hn.
      by destruct (match_at (String c (pre +:+ s))).
  - induction data as [|c data IH]; intros Hno; [done|].
    cbn [first_match].
    destruct (match_at (String c data)) as [g|] eqn:Hm.
    + destruct (match_at_Some _ _ Hm) as (kw & r & Hkw & Heq & _).
      destruct Hno. exists "", (String c data). split; [done|].
      by exists kw, r.
    + apply IH. intros (pre & s & -> & Hs).
      apply Hno. by exists (String c pre), s.
Qed.

(** The shape of a subject whose list of matches is not empty. *)
Lemma findall_cons (data : string) (g : string * string) (gs : list (string * string)) :
  findall data = g :: gs →
  ∃ pre post,
    data = pre +:+ fst g +:+ post ∧ no_field_inside pre (fst g +:+ post) ∧
    match_at (fst g +:+ post) = Some g ∧ at_line_end post ∧
    gs = findall post.
Proof.
  unfold findall at 1. induction data as [|c data IH]; [done|].
  cbn [findall_from].
  destruct (match_at (String c data)) as [g0|] eqn:Hm.
  - intros [= -> <-].
    destruct (match_at_Some _ _ Hm) as (kw & r & Hkw & Heq & Hg).
    destruct (dot_star_split (String c data)) as (post & Hsplit & Hpost).
    assert (fst g = dot_star (String c data)) as Hfst by by rewrite Hg.
    exists "", post. rewrite Hfst, <- Hsplit.
    split; [done|]. split; [by intros [] [] |].
    split; [done|]. split; [done|].
    rewrite <- Hfst.
    destruct (fst g) as [|x m] eqn:Hm1.
    { rewrite Heq in Hfst. by rewrite dot_star_no_lf in Hfst. }
    rewrite <- Hfst in Hsplit. injection Hsplit as -> ->.
    replace (String.length (String x m) - 1) with (String.length m)
      by (simpl; lia).
    apply findall_from_skip.
  - intros H. destruct (IH H) as (pre & post & Hd & Hno & Hg & Hpost & Hgs).
    exists (String c pre), post. split; [by rewrite Hd|].
    split; [|done].
    intros [|x p1] p2 Hp Hp2 Hs; simpl in Hp.
    + subst p2. apply (match_at_None _ Hm).
      by rewrite Hd.
    + injection Hp as -> ->. by apply (Hno p1 p2).
Qed.

(** Every element of the list is a match at some position of the subject. *)
Lemma findall_from_elem (k : nat) (s : string) (g : string * string) :
  g ∈ findall_from k s → ∃ t, match_at t = Some g.
Proof.
  revert k. induction s as [|c s IH]; intros k; [by intros ?%elem_of_nil|].
  destruct k as [|k]; cbn [findall_from]; [|by apply IH].
  destruct (match_at (String c s)) as [g0|] eqn:Hm; [|by apply IH].
  intros [->|Hin]%elem_of_cons; [by exists (String c s) | by eapply IH].
Qed.

(** ** The label never overlaps itself *)

Lemma starts_with_shorter (p a x : string) :
  starts_with p (a +:+ x) = true → String.length p ≤ String.length a →
  starts_with p a = true.
Proof.
  revert a. induction p as [|c p IH]; intros a Hs Hlen; [done|].
  destruct a as [|d a]; [simpl in Hlen; lia|].
  change (String d a +:+ x) with (String d (a +:+ x)) in Hs.
  cbn [starts_with] in *. apply andb_true_iff in Hs as [-> Hs].
  apply IH; [done | simpl in Hlen; lia].
Qed.

Lemma starts_with_longer (p a x : string) :
  starts_with p a = true → starts_with p (a +:+ x) = true.
Proof.
  intros [r ->]%starts_with_true. rewrite str_app_assoc. apply starts_with_app.
Qed.

Lemma starts_with_length (p s : string) :
  starts_with p s = true → String.length p ≤ String.length s.
Proof.
  intros [r ->]%starts_with_true. rewrite str_app_length. lia.
Qed.

(** A second occurrence cannot begin inside a first one. *)
Lemma label_no_border (a x : string) :
  a ≠ "" → String.length a < String.length label →
  starts_with label (a +:+ label +:+ x) = false.
Proof.
  intros Ha Hlen.
  do 13 (destruct a as [|? a];
    [ try done; unfold label, quote; cbn [String.append starts_with];
      repeat match goal with
      | |- context [Ascii.eqb ?u ?v] =>
          destruct (Ascii.eqb_spec u v); [subst|]; cbn [andb]; try done
      end
    |]).
  simpl in Hlen. lia.
Qed.

(** Every occurrence of the label is taken out: the text on either side
    of one is processed on its own. *)
Lemma replace_label_split (a b : string) :
  replace label "" (a +:+ label +:+ b)
  = replace label "" a +:+ replace label "" b.
Proof.
  remember (String.length a) as n eqn:Hn. revert a Hn.
  induction (lt_wf n) as [n _ IH]. intros a ->.
  destruct a as [|c a].
  - change ("" +:+ label +:+ b) with (label +:+ b).
    by rewrite replace_head by apply label_nonempty.
  - destruct (starts_with label (String c a +:+ label +:+ b)) eqn:Hs.
    + destruct (decide (String.length (String c a) < String.length label))
        as [Hlt|Hge].
      { by rewrite label_no_border in Hs. }
      apply starts_with_shorter in Hs; [|lia].
      apply starts_with_true in Hs as [r Hr]. rewrite Hr.
      rewrite str_app_assoc.
      rewrite !(replace_head label) by apply label_nonempty.
      change ("" +:+ ?t) with t.
      apply (IH (String.length r)); [|done].
      rewrite Hr, str_app_length. compute. lia.
    + assert (starts_with label (String c a) = false) as Hs'.
      { destruct (starts_with label (String c a)) eqn:Hs'; [|done].
        by rewrite (starts_with_longer _ _ _ Hs') in Hs. }
      change (String c a +:+ label +:+ b)
        with (String c (a +:+ label +:+ b)) in *.
      unfold replace at 1 2. cbn [replace_from]. rewrite Hs, Hs'.
      fold (replace label "" (a +:+ label +:+ b)).
      fold (replace label "" a).
      rewrite (IH (String.length a)); [done| simpl; lia |done].
Qed.

(** ** The first match of a subject *)

Lemma starts_field_app_lf (s t : string) :
  starts_field (s +:+ String LF t) ↔ starts_field s.
Proof.
  split; intros Hs.
  - destruct (match_at_starts _ Hs) as (kw & _ & Hm).
    rewrite match_at_app_lf in Hm.
    destruct (match_at_Some _ _ Hm) as (kw' & r & Hkw & Heq & _).
    by exists kw', r.
  - destruct Hs as (kw & r & Hkw & ->).
    exists kw, (r +:+ String LF t). by rewrite !str_app_assoc.
Qed.

(** The list of matches of a subject cut at its first match. *)
Lemma findall_first (pre m post : string) (g : string * string) :
  no_field_inside pre (m +:+ post) → match_at (m +:+ post) = Some g →
  fst g = m →
  findall (pre +:+ m +:+ post) = g :: findall post.
Proof.
  intros Hno Hm Hg. unfold findall at 1.
  induction pre as [|c pre IH].
  - change ("" +:+ m +:+ post) with (m +:+ post).
    destruct m as [|x m].
    { destruct (match_at_Some _ _ Hm) as (kw & r & _ & Heq & Hd).
      rewrite Hd in Hg. rewrite Heq in Hg.
      by rewrite dot_star_no_lf in Hg. }
    change (String x m +:+ post) with (String x (m +:+ post)) in *.
    cbn [findall_from]. rewrite Hm. f_equal. rewrite Hg.
    replace (String.length (String x m) - 1) with (String.length m)
      by (simpl; lia).
    apply findall_from_skip.
  - change (String c pre +:+ m +:+ post)
      with (String c (pre +:+ m +:+ post)).
    cbn [findall_from].
    destruct (match_at (String c (pre +:+ m +:+ post))) as [g0|] eqn:H0.
    + destruct (match_at_Some _ _ H0) as (kw & r & Hkw & Heq & _).
      destruct (Hno "" (String c pre)); [done..|]. by exists kw, r.
    + apply IH. intros p1 p2 -> Hp2. by apply (Hno (String c p1) p2).
Qed.

Lemma extract_snippet_findall (data : string) (g : string * string) (gs : list (string * string)) :
  findall data = g :: gs →
  extract_snippet data = Some (slice_0_m1 (cleaned (fst g))).
Proof. unfold extract_snippet. by intros ->. Qed.

(** The text before the slice when the match is a label, a body and a
    quote, the label occurring only once. *)
Lemma cleaned_field (body : string) :
  ¬ occurs_in label (body +:+ quote) →
  cleaned (label +:+ body +:+ quote) = unescape body +:+ quote.
Proof.
  intros Hno. unfold cleaned, unescape.
  rewrite replace_head by apply label_nonempty.
  change ("" +:+ ?t) with t.
  rewrite (replace_absent label) by done.
  by apply unescape_snoc.
Qed.

(** The snippet always opens with the first two characters of a keyword. *)
Lemma cleaned_keyword (kw r : string) :
  kw ∈ keywords →
  ∃ a b t, cleaned (label +:+ kw +:+ r) = String a (String b t).
Proof.
  intros Hkw. unfold cleaned.
  rewrite replace_head by apply label_nonempty.
  change ("" +:+ ?t) with t.
  unfold keywords in Hkw. rewrite !elem_of_cons, elem_of_nil in Hkw.
  unfold label, escaped_newline.
  destruct Hkw as [->|[->|[->|[]]]];
    match goal with
    | |- context [String ?a (String ?b ?t) +:+ r] =>
        change (String a (String b t) +:+ r)
          with (String a (String b (t +:+ r)))
    end;
    cbn [String.append];
    rewrite !(replace_keep_head "e") by done;
    rewrite !(replace_keep_head "\") by done;
    eauto.
Qed.

(** * The claims on [extract_snippet] *)

(** C1, as amended: when a field of the expected shape is the first match
    of the pattern, its content holds no line feed, its closing quote ends
    its line and the label does not occur again between the opening quote
    and the end of the line, [extract_snippet] returns the quoted content
    with every escaped newline turned into a line feed. *)
Theorem c1_field_extracted (pre content post : string) :
  (∃ kw r, kw ∈ keywords ∧ content = kw +:+ r) →
  mem_char LF content = false →
  at_line_end post →
  ¬ occurs_in label (content +:+ quote) →
  no_field_inside pre (label +:+ content +:+ quote +:+ post) →
  extract_snippet (pre +:+ label +:+ content +:+ quote +:+ post)
  = Some (unescape content).
Proof.
  intros (kw & r & Hkw & Hc) Hlf Hpost Hocc Hno.
  assert (starts_field (label +:+ content +:+ quote +:+ post)) as Hs.
  { exists kw, (r +:+ quote +:+ post). split; [done|].
    by rewrite Hc, !str_app_assoc. }
  destruct (match_at_starts _ Hs) as (kw' & _ & Hm).
  assert (dot_star (label +:+ content +:+ quote +:+ post)
          = label +:+ content +:+ quote) as Hd.
  { replace (label +:+ content +:+ quote +:+ post)
      with ((label +:+ content +:+ quote) +:+ post)
      by by rewrite !str_app_assoc.
    apply dot_star_line; [|done].
    by rewrite !mem_char_app, Hlf. }
  pose proof (head_findall (pre +:+ label +:+ content +:+ quote +:+ post)) as Hh.
  rewrite first_match_here, Hm, Hd in Hh by done.
  unfold extract_snippet.
  destruct (findall _) as [|g gs]; [done|].
  apply (inj Some) in Hh. rewrite Hh. cbn [fst].
  rewrite cleaned_field by done.
  f_equal. apply slice_0_m1_snoc.
Qed.

(** C1 as stated fails: a field followed by a comma on its line comes back
    with its closing quote. *)
Lemma c1_counterexample :
  field_in (label +:+ "pub fn f() {}" +:+ quote +:+ ",")
           "" "pub fn f() {}" ","
  ∧ extract_snippet (label +:+ "pub fn f() {}" +:+ quote +:+ ",")
    = Some ("pub fn f() {}" +:+ quote)
  ∧ extract_snippet (label +:+ "pub fn f() {}" +:+ quote +:+ ",")
    ≠ Some (unescape "pub fn f() {}").
Proof.
  split; [|split; [done|by vm_compute]].
  split; [done|]. exists "pub", " fn f() {}". split; [|done].
  unfold keywords. by left.
Qed.

Lemma occursb_false (old s : string) :
  occursb old s = false → ¬ occurs_in old s.
Proof.
  intros Hb (a & b & ->). induction a as [|c a IH].
  - change ("" +:+ old +:+ b) with (old +:+ b) in Hb.
    destruct (old +:+ b) eqn:Hob; cbn [occursb] in Hb;
      apply orb_false_elim in Hb as [Hb _];
      by rewrite <- Hob, starts_with_app in Hb.
  - change (String c a +:+ old +:+ b) with (String c (a +:+ old +:+ b)) in Hb.
    cbn [occursb] in Hb. apply orb_false_elim in Hb as [_ Hb]. by apply IH.
Qed.

Lemma no_match_inside_true (pre s : string) :
  no_match_inside pre s = true → no_field_inside pre s.
Proof.
  induction pre as [|c pre IH]; intros Hb p1 p2 Hp Hp2 Hs.
  - destruct p1, p2; done.
  - cbn [no_match_inside] in Hb.
    destruct (match_at (String c pre +:+ s)) as [g|] eqn:Hm; [done|].
    destruct p1 as [|x p1]; simpl in Hp.
    + subst p2. by apply (match_at_None _ Hm).
    + injection Hp as -> ->. by apply (IH Hb p1 p2).
Qed.

Lemma c1_witness :
  extract_snippet
    ("source: x" +:+ newline +:+ label +:+ "pub fn foo() {\n  1\n}"
     +:+ quote +:+ "")
  = Some (unescape "pub fn foo() {\n  1\n}").
Proof.
  apply (c1_field_extracted ("source: x" +:+ newline)
           "pub fn foo() {\n  1\n}" "").
  - exists "pub", " fn foo() {\n  1\n}". split; [by left | reflexivity].
  - reflexivity.
  - left. reflexivity.
  - apply occursb_false. vm_compute. reflexivity.
  - apply no_match_inside_true. vm_compute. reflexivity.
Defined.

Lemma ends_with_app (suffix a : string) :
  ends_with suffix (a +:+ suffix) = true.
Proof.
  induction a as [|c a IH].
  - change ("" +:+ suffix) with suffix.
    destruct suffix; cbn [ends_with]; by rewrite String.eqb_refl.
  - change (String c a +:+ suffix) with (String c (a +:+ suffix)).
    cbn [ends_with]. rewrite IH. apply orb_true_r.
Qed.

(** The removal of the label leaves a closing quote alone, unless the
    quote is the one that ends an occurrence of the label. *)
Lemma replace_label_snoc_from (k : nat) (s : string) :
  k ≤ String.length s →
  (∀ a, s +:+ quote ≠ a +:+ label) →
  replace_from k label "" (s +:+ quote)
  = replace_from k label "" s +:+ quote.
Proof.
  revert k. induction s as [|c s IH]; intros k Hk Hend.
  { assert (k = 0) as -> by (simpl in Hk; lia). reflexivity. }
  assert (∀ a, s +:+ quote ≠ a +:+ label) as Hend'.
  { intros a Ha. apply (Hend (String c a)). simpl. by rewrite Ha. }
  change (String c s +:+ quote) with (String c (s +:+ quote)).
  destruct k as [|k]; cbn [replace_from]; [|apply IH; [simpl in Hk; lia | done]].
  change (String c (s +:+ quote)) with (String c s +:+ quote).
  destruct (starts_with label (String c s)) eqn:H1.
  - rewrite (starts_with_longer _ _ _ H1).
    apply starts_with_length in H1.
    change ("" +:+ ?t) with t.
    apply IH; [|done]. change (String.length label) with 13 in *.
    simpl in H1. lia.
  - destruct (starts_with label (String c s +:+ quote)) eqn:H2.
    + destruct (decide (String.length label ≤ String.length (String c s)))
        as [Hle|Hgt].
      { by rewrite (starts_with_shorter _ _ _ H2 Hle) in H1. }
      pose proof (starts_with_length _ _ H2) as Hlen.
      apply starts_with_true in H2 as [r Hr].
      assert (r = "") as ->.
      { destruct r as [|x r]; [done|]. exfalso.
        apply (f_equal String.length) in Hr.
        rewrite !str_app_length in Hr.
        change (String.length label) with 13 in *.
        cbn [String.length quote] in *. lia. }
      rewrite str_app_nil_r in Hr. by destruct (Hend "").
    + change (String c s +:+ quote) with (String c (s +:+ quote)).
      change (String c (replace_from 0 label "" s) +:+ quote)
        with (String c (replace_from 0 label "" s +:+ quote)).
      f_equal. apply IH; [lia | done].
Qed.

(** The text before the slice when the match is a label, a body and a
    quote that does not end a second label. *)
Lemma cleaned_closing_quote (body : string) :
  ends_with label (body +:+ quote) = false →
  cleaned (label +:+ body +:+ quote)
  = unescape (replace label "" body) +:+ quote.
Proof.
  intros Hend. unfold cleaned, unescape.
  rewrite replace_head by apply label_nonempty.
  change ("" +:+ ?t) with t.
  unfold replace at 2 4. rewrite replace_label_snoc_from; [|lia|].
  - by apply unescape_snoc.
  - intros a Ha. by rewrite Ha, ends_with_app in Hend.
Qed.

(** C3, as amended: when the first match is the label, a body and a double
    quote that ends the line, the character the slice drops is that
    closing quote and what is left is the body without the labels it
    holds, its escaped newlines turned into line feeds; unless the body
    ends with the label less its quote, the closing quote then going
    with that label. *)
Theorem c3_closing_quote_trimmed (data body : string) (g : string * string)
    (gs : list (string * string)) :
  findall data = g :: gs →
  fst g = label +:+ body +:+ quote →
  ends_with label (body +:+ quote) = false →
  trimmed_char data = Some DQUOTE
  ∧ extract_snippet data = Some (unescape (replace label "" body)).
Proof.
  intros Hf Hg Hend. unfold trimmed_char, extract_snippet.
  rewrite Hf, Hg, cleaned_closing_quote by done.
  split; [apply last_char_snoc | f_equal; apply slice_0_m1_snoc].
Qed.

Lemma c3_witness :
  trimmed_char (label +:+ ("fn " +:+ label +:+ "x") +:+ quote +:+ newline +:+ "more")
  = Some DQUOTE
  ∧ extract_snippet
      (label +:+ ("fn " +:+ label +:+ "x") +:+ quote +:+ newline +:+ "more")
    = Some (unescape (replace label "" ("fn " +:+ label +:+ "x"))).
Proof.
  apply (c3_closing_quote_trimmed _ ("fn " +:+ label +:+ "x")
           (label +:+ ("fn " +:+ label +:+ "x") +:+ quote, "fn") []).
  - vm_compute. reflexivity.
  - reflexivity.
  - vm_compute. reflexivity.
Defined.

(** C3 as stated fails: with a blank after the closing quote a match is
    found, the slice drops the blank and the quote stays in the snippet. *)
Lemma c3_counterexample :
  findall (label +:+ "fn a" +:+ quote +:+ " ")
  = [(label +:+ "fn a" +:+ quote +:+ " ", "fn")]
  ∧ trimmed_char (label +:+ "fn a" +:+ quote +:+ " ") = Some " "%char
  ∧ trimmed_char (label +:+ "fn a" +:+ quote +:+ " ") ≠ Some DQUOTE
  ∧ extract_snippet (label +:+ "fn a" +:+ quote +:+ " ")
    = Some ("fn a" +:+ quote).
Proof. repeat split; by vm_compute. Qed.

(** C6: in a subject with two matches or more, the first match ends its
    line, the text up to there has this match alone, the snippet is the one
    of this match, and it stays the same whatever lines follow. *)
Theorem c6_first_match_only (data : string) (g1 g2 : string * string)
    (gs : list (string * string)) :
  findall data = g1 :: g2 :: gs →
  ∃ head tail,
    data = head +:+ newline +:+ tail
    ∧ findall head = [g1]
    ∧ findall (newline +:+ tail) = g2 :: gs
    ∧ extract_snippet data = Some (slice_0_m1 (cleaned (fst g1)))
    ∧ ∀ tail', extract_snippet (head +:+ newline +:+ tail')
               = extract_snippet data.
Proof.
  intros Hf.
  destruct (findall_cons _ _ _ Hf) as (pre & post & Hd & Hno & Hm & Hpost & Hgs).
  destruct Hpost as [->|[t ->]]; [done|].
  rewrite match_at_app_lf in Hm.
  assert (no_field_inside pre (fst g1)) as Hno'.
  { intros p1 p2 Hp Hp2 Hs. apply (Hno p1 p2 Hp Hp2).
    rewrite <- str_app_assoc. by apply starts_field_app_lf. }
  assert (∀ t', findall ((pre +:+ fst g1) +:+ newline +:+ t')
               = g1 :: findall (newline +:+ t')) as Hany.
  { intros t'. change (newline +:+ t') with (String LF t').
    rewrite str_app_assoc. apply findall_first; [|by rewrite match_at_app_lf|done].
    intros p1 p2 Hp Hp2 Hs. apply (Hno' p1 p2 Hp Hp2).
    rewrite <- str_app_assoc in Hs. by apply starts_field_app_lf in Hs. }
  exists (pre +:+ fst g1), t.
  change (newline +:+ t) with (String LF t).
  split; [by rewrite str_app_assoc|].
  split.
  { rewrite <- (str_app_nil_r (fst g1)) at 1.
    rewrite (findall_first pre (fst g1) "" g1); [done| |by rewrite str_app_nil_r|done].
    by rewrite str_app_nil_r. }
  split; [done|].
  split; [by apply (extract_snippet_findall _ _ _ Hf)|].
  intros t'. rewrite (extract_snippet_findall _ _ _ (Hany t')).
  by rewrite (extract_snippet_findall _ _ _ Hf).
Qed.

Lemma c6_witness :
  ∃ head tail,
    label +:+ "fn a" +:+ quote +:+ newline +:+ label +:+ "pub b" +:+ quote
    = head +:+ newline +:+ tail
    ∧ findall head = [(label +:+ "fn a" +:+ quote, "fn")]
    ∧ findall (newline +:+ tail) = (label +:+ "pub b" +:+ quote, "pub") :: []
    ∧ extract_snippet
        (label +:+ "fn a" +:+ quote +:+ newline +:+ label +:+ "pub b" +:+ quote)
      = Some (slice_0_m1 (cleaned (fst (label +:+ "fn a" +:+ quote, "fn"))))
    ∧ ∀ tail', extract_snippet (head +:+ newline +:+ tail')
               = extract_snippet
                   (label +:+ "fn a" +:+ quote +:+ newline +:+ label
                    +:+ "pub b" +:+ quote).
Proof.
  apply (c6_first_match_only
           (label +:+ "fn a" +:+ quote +:+ newline +:+ label +:+ "pub b" +:+ quote)
           (label +:+ "fn a" +:+ quote, "fn")
           (label +:+ "pub b" +:+ quote, "pub") []).
  vm_compute. reflexivity.
Defined.

(** C8: a snippet that is returned is never empty, so that the test
    [if snippet] is true exactly when the pattern matched, and the snippet
    of a file whose text matched is kept. *)
Theorem c8_snippet_nonempty (data r : string) :
  extract_snippet data = Some r →
  r ≠ ""
  ∧ truthy (extract_snippet data) = true
  ∧ ∀ w p, files w !! p = Some data → snippet_of w p = Some r.
Proof.
  unfold extract_snippet at 1.
  destruct (findall data) as [|g gs] eqn:Hf; [done|].
  destruct (findall_cons _ _ _ Hf) as (pre & post & _ & _ & Hm & _ & _).
  destruct (match_at_Some _ _ Hm) as (kw & r0 & Hkw & Heq & Hg).
  destruct g as [m k]. cbn [fst] in *. injection Hg as Hfst _.
  rewrite Heq in Hfst.
  rewrite dot_star_no_lf in Hfst by apply label_no_lf.
  rewrite dot_star_no_lf in Hfst by by apply keywords_no_lf.
  assert (extract_snippet data = Some (slice_0_m1 (cleaned m))) as He
    by by apply (extract_snippet_findall _ (m, k) gs).
  rewrite Hfst in He |- *.
  destruct (cleaned_keyword kw (dot_star r0) Hkw) as (a & b & t & Hc).
  rewrite Hc in He |- *. intros [= <-].
  assert (truthy (extract_snippet data) = true) as Ht
    by (rewrite He; by destruct t).
  split; [by destruct t|]. split; [done|].
  intros w p Hp. unfold snippet_of. by rewrite Hp, Ht.
Qed.

Lemma c8_witness :
  "f" ≠ ""
  ∧ truthy (extract_snippet (label +:+ "fn")) = true
  ∧ ∀ w p, files w !! p = Some (label +:+ "fn") → snippet_of w p = Some "f".
Proof.
  apply (c8_snippet_nonempty (label +:+ "fn") "f").
  vm_compute. reflexivity.
Defined.

(** C9: the label has thirteen characters and the first [replace] takes out
    every occurrence of it, the text on either side of an occurrence being
    processed on its own; so, on a field whose content holds the label
    again, the snippet is not the content left by removing the label at the
    head only. *)
Theorem c9_label_removed_everywhere :
  String.length label = 13
  ∧ (∀ a b, replace label "" (a +:+ label +:+ b)
            = replace label "" a +:+ replace label "" b)
  ∧ ∃ data content,
      data = label +:+ content +:+ quote
      ∧ occurs_in label content
      ∧ extract_snippet_prefix_only data = Some content
      ∧ extract_snippet data = Some "fn x"
      ∧ extract_snippet data ≠ extract_snippet_prefix_only data.
Proof.
  split; [reflexivity|]. split; [apply replace_label_split|].
  exists (label +:+ ("fn " +:+ label +:+ "x") +:+ quote), ("fn " +:+ label +:+ "x").
  split; [reflexivity|].
  split; [by exists "fn ", "x"|].
  split; [by vm_compute|]. split; by vm_compute.
Qed.

(** C10: a match never holds a line feed, nor does it once the label is
    taken out; when it holds no escaped newline either, the snippet has no
    line feed at all. *)
Theorem c10_match_on_one_line (data : string) (g : string * string) :
  g ∈ findall data →
  mem_char LF (fst g) = false
  ∧ mem_char LF (replace label "" (fst g)) = false
  ∧ (¬ occurs_in escaped_newline (replace label "" (fst g)) →
     mem_char LF (slice_0_m1 (cleaned (fst g))) = false).
Proof.
  intros [t Ht]%findall_from_elem.
  destruct (match_at_Some _ _ Ht) as (kw & r & _ & _ & ->). cbn [fst].
  pose proof (dot_star_mem_lf t) as Hlf.
  pose proof (mem_char_remove_from 0 LF label _ Hlf) as Hrm.
  split; [done|]. split; [done|].
  intros Hesc. apply mem_char_slice. unfold cleaned.
  by rewrite replace_absent.
Qed.

Lemma c10_witness :
  mem_char LF (fst (label +:+ "fn a", "fn")) = false
  ∧ mem_char LF (replace label "" (fst (label +:+ "fn a", "fn"))) = false
  ∧ (¬ occurs_in escaped_newline (replace label "" (fst (label +:+ "fn a", "fn"))) →
     mem_char LF (slice_0_m1 (cleaned (fst (label +:+ "fn a", "fn")))) = false).
Proof.
  apply (c10_match_on_one_line
           ("x" +:+ newline +:+ label +:+ "fn a" +:+ newline +:+ "y")).
  vm_compute. left.
Defined.

(** A subject in which the pattern fits nowhere has no match. *)
Lemma extract_snippet_None (data : string) :
  extract_snippet data = None ↔ ¬ has_field data.
Proof.
  rewrite <- first_match_None, <- head_findall. unfold extract_snippet.
  by destruct (findall data).
Qed.

(** ** Facts on the names of the output files *)

Lemma last_char_app (a b : string) :
  b ≠ "" → last_char (a +:+ b) = last_char b.
Proof.
  intros Hb. induction a as [|c a IH]; [done|].
  change (String c a +:+ b) with (String c (a +:+ b)).
  cbn [last_char]. rewrite IH.
  destruct (a +:+ b) eqn:Hab; [|done].
  destruct a; [|done]. by destruct Hb.
Qed.

Lemma ends_with_true (suffix s : string) :
  ends_with suffix s = true → ∃ a, s = a +:+ suffix.
Proof.
  induction s as [|c s IH]; cbn [ends_with].
  - rewrite orb_false_r. intros <-%String.eqb_eq. by exists "".
  - intros [<-%String.eqb_eq|Hs]%orb_true_iff; [by exists ""|].
    destruct (IH Hs) as [a ->]. by exists (String c a).
Qed.

Lemma last_char_pretty_N_go (x : N) (s : string) :
  s ≠ "" → last_char (pretty_N_go x s) = last_char s.
Proof.
  revert s. induction (N.lt_wf_0 x) as [x _ IH]. intros s Hs.
  destruct (decide (x = 0)%N) as [->|Hx]; [by rewrite pretty_N_go_0|].
  rewrite pretty_N_go_step by lia.
  rewrite IH; [by destruct s | by apply N.div_lt; lia | done].
Qed.

Lemma last_char_pretty (n : nat) :
  ∃ d, (d < 10)%N ∧ last_char (pretty n) = Some (pretty_N_char d).
Proof.
  unfold pretty, pretty_nat, pretty, pretty_N.
  case_decide as Hn.
  - exists 0%N. split; [lia | done].
  - exists (N.of_nat n `mod` 10)%N. split; [by apply N.mod_lt|].
    rewrite pretty_N_go_step by lia.
    by rewrite last_char_pretty_N_go.
Qed.

Lemma out_path_inj (out_folder : string) (i j : nat) :
  out_path out_folder i = out_path out_folder j → i = j.
Proof.
  unfold out_path. intros Heq.
  apply (inj (String.app out_folder)) in Heq.
  apply (inj (String.app "/")) in Heq.
  by apply (inj pretty) in Heq.
Qed.

(** An output file is not the output folder. *)
Lemma out_path_ne_folder (out_folder : string) (i : nat) :
  out_path out_folder i ≠ out_folder.
Proof.
  unfold out_path. intros Heq.
  apply (f_equal String.length) in Heq.
  rewrite !str_app_length in Heq. simpl in Heq. lia.
Qed.

(** An output file never bears the name of a snapshot. *)
Lemma out_path_not_snap (out_folder : string) (i : nat) :
  ends_with ".snap" (out_path out_folder i) = false.
Proof.
  destruct (ends_with ".snap" (out_path out_folder i)) eqn:He; [|done].
  apply ends_with_true in He as [a Ha].
  assert (last_char (out_path out_folder i) = Some "p"%char) as Hl.
  { rewrite Ha. by rewrite last_char_app. }
  destruct (last_char_pretty i) as (d & Hd & Hp).
  unfold out_path in Hl.
  assert (pretty i ≠ "") as Hne by (intros Hnil; by rewrite Hnil in Hp).
  rewrite last_char_app in Hl by by destruct (pretty i).
  rewrite last_char_app in Hl by done.
  rewrite Hp in Hl. injection Hl as Hl.
  assert (d = 0 ∨ d = 1 ∨ d = 2 ∨ d = 3 ∨ d = 4 ∨ d = 5 ∨ d = 6 ∨ d = 7
          ∨ d = 8 ∨ d = 9)%N as Hcases by lia.
  by repeat destruct Hcases as [->|Hcases]; try subst d.
Qed.

Lemma out_path_cases (p out_folder : string) (index n : nat) :
  (∃ i, i < n ∧ p = out_path out_folder (index + i))
  ∨ (∀ i, i < n → p ≠ out_path out_folder (index + i)).
Proof.
  induction n as [|n [(i & Hi & ->)|IH]].
  - right. intros i Hi. lia.
  - left. exists i. split; [lia | done].
  - destruct (decide (p = out_path out_folder (index + n))) as [->|Hne].
    + left. exists n. split; [lia | done].
    + right. intros i Hi. destruct (decide (i = n)) as [->|]; [done|].
      apply IH. lia.
Qed.

(** ** Facts on [emit_files] *)

Lemma emit_files_miss (out_folder : string) (index : nat) (l : list string)
    (m : gmap string string) (p : string) :
  (∀ i, i < length l → p ≠ out_path out_folder (index + i)) →
  emit_files out_folder index l m !! p = m !! p.
Proof.
  revert index m. induction l as [|s l IH]; intros index m Hp; [done|].
  cbn [emit_files]. rewrite IH.
  - apply lookup_insert_ne. intros Heq.
    apply (Hp 0); [simpl; lia|]. by rewrite Nat.add_0_r.
  - intros i Hi. replace (S index + i) with (index + S i) by lia.
    apply Hp. simpl. lia.
Qed.

Lemma emit_files_hit (out_folder : string) (index : nat) (l : list string)
    (m : gmap string string) (i : nat) (s : string) :
  l !! i = Some s →
  emit_files out_folder index l m !! out_path out_folder (index + i) = Some s.
Proof.
  revert index m i. induction l as [|s0 l IH]; intros index m i Hi; [done|].
  cbn [emit_files]. destruct i as [|i]; simpl in Hi.
  - injection Hi as ->. rewrite Nat.add_0_r.
    rewrite emit_files_miss; [apply lookup_insert_eq|].
    intros j _ Heq%out_path_inj. lia.
  - replace (index + S i) with (S index + i) by lia. by apply IH.
Qed.

(** Writing the same snippets again changes nothing. *)
Lemma emit_files_twice (out_folder : string) (index : nat) (l : list string)
    (m : gmap string string) :
  emit_files out_folder index l (emit_files out_folder index l m)
  = emit_files out_folder index l m.
Proof.
  apply map_eq. intros p.
  destruct (out_path_cases p out_folder index (length l)) as [(i & Hi & ->)|Hp].
  - destruct (lookup_lt_is_Some_2 l i Hi) as [s Hs].
    by rewrite !(emit_files_hit _ _ _ _ _ _ Hs).
  - by rewrite emit_files_miss.
Qed.

(** ** Facts on the two loops *)

(** One turn of a loop, laid bare. *)
Ltac unfold_turn :=
  unfold mbind, M_bind, print, open_write, write; cbn [dirs files stdout].

Lemma open_read_world (path : string) (w : world) :
  snd (open_read path w) = w.
Proof.
  unfold open_read. case_decide; [done|]. by destruct (files w !! path).
Qed.

(** Reading changes nothing, whatever its outcome. *)
Lemma read_snippets_world (paths acc : list string) (w : world) :
  snd (read_snippets paths acc w) = w.
Proof.
  revert acc. induction paths as [|p paths IH]; intros acc; [done|].
  cbn [read_snippets]. unfold mbind, M_bind.
  pose proof (open_read_world p w) as Hw.
  destruct (open_read p w) as [[data|e] w0]; simpl in Hw; subst w0; [|done].
  destruct (truthy (extract_snippet data)); apply IH.
Qed.

Lemma snippet_of_option_list (w : world) (p data : string) :
  files w !! p = Some data →
  (if truthy (extract_snippet data)
   then option_list (extract_snippet data) else [])
  = option_list (snippet_of w p).
Proof.
  intros Hp. unfold snippet_of. rewrite Hp.
  by destruct (truthy (extract_snippet data)).
Qed.

(** When every path is a readable file the first loop returns the snippets
    in the order of the walk. *)
Lemma read_snippets_returned (paths acc : list string) (w : world) :
  Forall (λ p, (p ∉ dirs w) ∧ is_Some (files w !! p)) paths →
  read_snippets paths acc w = (Returned (acc ++ omap (snippet_of w) paths), w).
Proof.
  revert acc. induction paths as [|p paths IH]; intros acc Hall.
  - simpl. by rewrite app_nil_r.
  - apply Forall_cons in Hall as [[Hdir [data Hdata]] Hall].
    cbn [read_snippets]. unfold mbind, M_bind, open_read.
    rewrite decide_False by done. rewrite Hdata.
    pose proof (snippet_of_option_list w p data Hdata) as Hs.
    cbn [omap list_omap].
    destruct (truthy (extract_snippet data)).
    + rewrite IH by done. rewrite Hs.
      destruct (snippet_of w p); simpl; by rewrite <- ?app_assoc, ?app_nil_r.
    + rewrite IH by done.
      by destruct (snippet_of w p).
Qed.

(** The outcome of the first loop depends on the directories and on the
    files of the walk only. *)
Lemma read_snippets_ext (paths acc : list string) (w w' : world) :
  dirs w = dirs w' →
  (∀ p, p ∈ paths → files w !! p = files w' !! p) →
  fst (read_snippets paths acc w) = fst (read_snippets paths acc w').
Proof.
  intros Hd. revert acc. induction paths as [|p paths IH]; intros acc Hf; [done|].
  cbn [read_snippets]. unfold mbind, M_bind, open_read.
  rewrite <- Hd, <- (Hf p) by by left.
  case_decide; [done|].
  destruct (files w !! p) as [data|]; [|done].
  destruct (truthy (extract_snippet data));
    apply IH; intros q Hq; apply Hf; by right.
Qed.

(** A file without match adds nothing to the list. *)
Lemma read_snippets_skip (paths1 paths2 acc : list string) (p data : string) (w : world) :
  p ∉ dirs w → files w !! p = Some data → extract_snippet data = None →
  read_snippets (paths1 ++ p :: paths2) acc w
  = read_snippets (paths1 ++ paths2) acc w.
Proof.
  intros Hdir Hdata Hnone. revert acc.
  induction paths1 as [|q paths1 IH]; intros acc.
  - simpl. unfold mbind, M_bind, open_read.
    rewrite decide_False by done. rewrite Hdata, Hnone. done.
  - simpl. unfold mbind, M_bind.
    pose proof (open_read_world q w) as Hw.
    destruct (open_read q w) as [[d|e] w0]; simpl in Hw; subst w0; [|done].
    destruct (truthy (extract_snippet d)); apply IH.
Qed.

(** The second loop leaves the directories alone, and the files whose path
    is not the name of an output file, whatever its outcome. *)
Lemma write_snippets_frame (out_folder : string) (index : nat) (l : list string) (w : world) :
  dirs (snd (write_snippets out_folder index l w)) = dirs w
  ∧ ∀ p, (∀ i, p ≠ out_path out_folder i) →
      files (snd (write_snippets out_folder index l w)) !! p = files w !! p.
Proof.
  revert index w. induction l as [|s l IH]; intros index w; [done|].
  cbn [write_snippets]. unfold_turn.
  case_decide; [done|]. case_decide; [|by case_decide].
  cbn [dirs files stdout].
  match goal with
  | |- context [write_snippets out_folder (S index) l ?w0] =>
      destruct (IH (S index) w0) as [Hd Hf]
  end.
  cbn [dirs files] in Hd, Hf.
  split; [done|]. intros p Hp. rewrite Hf by done.
  by rewrite !lookup_insert_ne by done.
Qed.

(** When it returns, the second loop has written one file per snippet. *)
Lemma write_snippets_files (out_folder : string) (index : nat) (l : list string) (w w' : world) :
  write_snippets out_folder index l w = (Returned tt, w') →
  files w' = emit_files out_folder index l (files w) ∧ dirs w' = dirs w.
Proof.
  revert index w. induction l as [|s l IH]; intros index w.
  - by intros [= <-].
  - cbn [write_snippets emit_files].
    unfold_turn.
    case_decide; [done|]. case_decide; [|by case_decide].
    cbn [dirs files stdout].
    intros [Hf Hd]%IH. cbn [dirs files] in Hf, Hd.
    split; [|done]. rewrite Hf.
    rewrite lookup_insert_eq. cbn [default].
    change ("" +:+ s) with s. by rewrite insert_insert_eq.
Qed.

(** How the second loop ends depends on the directories and on what
    stands in the place of the output folder only. *)
Lemma write_snippets_ext (out_folder : string) (index : nat) (l : list string) (w w' : world) :
  dirs w = dirs w' →
  files w !! out_folder = files w' !! out_folder →
  fst (write_snippets out_folder index l w)
  = fst (write_snippets out_folder index l w').
Proof.
  revert index w w'. induction l as [|s l IH]; intros index w w' Hd Hf; [done|].
  cbn [write_snippets]. unfold_turn. rewrite <- Hd, <- Hf.
  case_decide; [done|]. case_decide; [|by case_decide].
  apply IH; [done|]. cbn [files].
  by rewrite !(lookup_insert_ne _ (out_path out_folder index) out_folder)
    by apply out_path_ne_folder.
Qed.

(** When the folder is there and no output name is taken by a directory,
    the second loop returns. *)
Lemma write_snippets_returned (out_folder : string) (index : nat) (l : list string) (w : world) :
  out_folder ∈ dirs w →
  Forall (λ i, out_path out_folder i ∉ dirs w) (seq index (length l)) →
  ∃ w', write_snippets out_folder index l w = (Returned tt, w').
Proof.
  revert index w. induction l as [|s l IH]; intros index w Hout Hall.
  - by exists w.
  - cbn [length seq] in Hall. apply Forall_cons in Hall as [Hi Hall].
    cbn [write_snippets]. unfold_turn.
    rewrite decide_False by done. rewrite decide_True by done.
    by apply IH.
Qed.

(** The files after the second loop, whatever its outcome: the snippets
    written before it stopped. *)
Lemma write_snippets_partial (out_folder : string) (index : nat) (l : list string) (w : world) :
  files (snd (write_snippets out_folder index l w))
  = emit_files out_folder index
      (take (completed out_folder index l (dirs w)) l) (files w).
Proof.
  revert index w. induction l as [|s l IH]; intros index w; [done|].
  cbn [write_snippets completed].
  unfold_turn.
  case_decide; [done|]. case_decide; [|by case_decide].
  cbn [dirs files stdout take emit_files].
  rewrite IH. cbn [dirs files].
  rewrite lookup_insert_eq. cbn [default].
  change ("" +:+ s) with s. by rewrite insert_insert_eq.
Qed.

Lemma read_snippets_value (paths acc l : list string) (w w' : world) :
  read_snippets paths acc w = (Returned l, w') →
  l = acc ++ omap (snippet_of w) paths.
Proof.
  revert acc. induction paths as [|p paths IH]; intros acc.
  - intros [= <- _]. by rewrite app_nil_r.
  - cbn [read_snippets]. unfold mbind, M_bind, open_read.
    case_decide; [done|].
    destruct (files w !! p) as [data|] eqn:Hdata; [|done].
    pose proof (snippet_of_option_list w p data Hdata) as Hs.
    cbn [omap list_omap].
    destruct (truthy (extract_snippet data)); intros ->%IH.
    + rewrite Hs. destruct (snippet_of w p); simpl;
        by rewrite <- ?app_assoc, ?app_nil_r.
    + by destruct (snippet_of w p).
Qed.

Lemma omap_length_filter {A B : Type} (f : A → option B) (l : list A) :
  length (omap f l) = length (filter (λ x, is_Some (f x)) l)
  ∧ length (omap f l) ≤ length l.
Proof.
  induction l as [|x l [IH1 IH2]]; [done|].
  cbn [omap list_omap]. rewrite filter_cons.
  destruct (f x) as [y|] eqn:Hy.
  - rewrite decide_True by done. simpl. split; [by rewrite IH1 | lia].
  - rewrite decide_False by (by intros [? ?]). simpl. split; [done | lia].
Qed.

(** * The claims on [generate_files] *)

Section generate_files.
Context `{Platform}.

Lemma traversal_elem (X : gset string) (p : string) :
  p ∈ traversal X ↔ p ∈ X.
Proof. by rewrite traversal_perm, elem_of_elements. Qed.

Lemma snap_entries_elem (folder p : string) (w : world) :
  p ∈ snap_entries folder w →
  ends_with ".snap" p = true ∧ (is_Some (files w !! p) ∨ p ∈ dirs w).
Proof.
  unfold snap_entries, is_snap.
  rewrite elem_of_filter, elem_of_union, elem_of_dom.
  intros [[_ Hs]%andb_true_iff Hin]. done.
Qed.

Lemma snap_not_out_path (p out_folder : string) (i : nat) :
  ends_with ".snap" p = true → p ≠ out_path out_folder i.
Proof. intros Hp ->. by rewrite out_path_not_snap in Hp. Qed.

(** The output files do not show up in the walk. *)
Lemma snap_entries_emit (folder out_folder : string) (index : nat)
    (l : list string) (w w' : world) :
  files w' = emit_files out_folder index l (files w) →
  dirs w' = dirs w →
  snap_entries folder w' = snap_entries folder w.
Proof.
  intros Hf Hd. apply set_eq. intros p. unfold snap_entries.
  rewrite !elem_of_filter, !elem_of_union, !elem_of_dom, Hf, Hd.
  split; intros [Hs Hin]; (split; [done|]);
    pose proof Hs as [_ He]%andb_true_iff;
    rewrite emit_files_miss in *; try done;
    intros i _; by apply snap_not_out_path.
Qed.

(** When every entry of the walk is a file, the output folder is there and
    no output name is taken by a directory, the run returns. *)
Lemma generate_files_returns (folder out_folder : string) (w : world) :
  let paths := traversal (snap_entries folder w) in
  let snippets := omap (snippet_of w) paths in
  Forall (λ p, p ∉ dirs w) paths →
  out_folder ∈ dirs w →
  Forall (λ i, out_path out_folder i ∉ dirs w) (seq 0 (length snippets)) →
  ∃ w', generate_files folder out_folder w = (Returned tt, w').
Proof.
  intros paths snippets Hfiles Hout Hnames.
  assert (Forall (λ p, (p ∉ dirs w) ∧ is_Some (files w !! p)) paths) as Hread.
  { apply Forall_forall. intros p Hp. rewrite Forall_forall in Hfiles.
    specialize (Hfiles p Hp). split; [done|].
    by apply traversal_elem, snap_entries_elem in Hp as [_ [?|Hd]]. }
  destruct (write_snippets_returned out_folder 0 snippets w Hout Hnames)
    as [w' Hw].
  exists w'.
  unfold generate_files, find_snaps, generate_from, mbind, M_bind.
  fold paths. by rewrite read_snippets_returned.
Qed.

(** C2: a run over the N snapshot files of the walk, M of which yield a
    snippet, returns as soon as every entry of the walk is a file, the
    output folder is there and no output name is taken by a directory; and
    a run that returns has written the M snippets to the M files named 0 to
    M-1, in the order of the walk, and has touched no other file. *)
Theorem c2_output_files (folder out_folder : string) (w : world) :
  let paths := traversal (snap_entries folder w) in
  let snippets := omap (snippet_of w) paths in
  (Forall (λ p, p ∉ dirs w) paths →
   out_folder ∈ dirs w →
   Forall (λ i, out_path out_folder i ∉ dirs w) (seq 0 (length snippets)) →
   ∃ w', generate_files folder out_folder w = (Returned tt, w'))
  ∧ ∀ w',
      generate_files folder out_folder w = (Returned tt, w') →
      length snippets
      = length (filter (λ p, is_Some (snippet_of w p)) paths)
      ∧ length snippets ≤ length paths
      ∧ (∀ i s, snippets !! i = Some s →
           files w' !! out_path out_folder i = Some s)
      ∧ (∀ p, (∀ i, i < length snippets → p ≠ out_path out_folder i) →
           files w' !! p = files w !! p)
      ∧ NoDup (out_path out_folder <$> seq 0 (length snippets))
      ∧ dirs w' = dirs w.
Proof.
  intros paths snippets. split; [apply generate_files_returns|].
  intros w'.
  unfold generate_files, find_snaps, generate_from, mbind, M_bind.
  fold paths.
  pose proof (read_snippets_world paths [] w) as Hw.
  destruct (read_snippets paths [] w) as [[l|e] w0] eqn:Hr;
    simpl in Hw; subst w0; [|done].
  apply read_snippets_value in Hr. simpl in Hr. subst l. fold snippets.
  intros [Hf Hd]%write_snippets_files.
  destruct (omap_length_filter (snippet_of w) paths) as [Hlen Hle].
  split; [done|]. split; [done|]. rewrite Hf.
  split; [intros i s Hi; by apply (emit_files_hit out_folder 0)|].
  split; [intros p Hp; by apply emit_files_miss|].
  split; [|done].
  apply NoDup_fmap_2; [|apply NoDup_seq].
  intros i j. apply out_path_inj.
Qed.

(** C4: a text in which the pattern fits nowhere gives [None], and a
    snapshot file with such a text adds no snippet, hence no output file:
    the run goes as if the file were not in the walk. *)
Theorem c4_no_field_no_output (data : string) :
  ¬ has_field data →
  extract_snippet data = None
  ∧ ∀ paths1 p paths2 out_folder w,
      files w !! p = Some data → p ∉ dirs w →
      snippet_of w p = None
      ∧ generate_from (paths1 ++ p :: paths2) out_folder w
        = generate_from (paths1 ++ paths2) out_folder w.
Proof.
  intros Hno%extract_snippet_None. split; [done|].
  intros paths1 p paths2 out_folder w Hdata Hdir. split.
  - unfold snippet_of. by rewrite Hdata, Hno.
  - unfold generate_from, mbind, M_bind.
    by rewrite (read_snippets_skip _ _ _ p data).
Qed.

(** C7: whatever the outcome of the run, every snapshot entry of the tree
    holds after it what it held before, and so does every directory. *)
Theorem c7_reads_only (folder out_folder p : string) (w : world) :
  p ∈ snap_entries folder w →
  files (snd (generate_files folder out_folder w)) !! p = files w !! p
  ∧ dirs (snd (generate_files folder out_folder w)) = dirs w.
Proof.
  intros [Hp _]%snap_entries_elem.
  unfold generate_files, find_snaps, generate_from, mbind, M_bind.
  pose proof (read_snippets_world (traversal (snap_entries folder w)) [] w) as Hw.
  destruct (read_snippets _ [] w) as [[l|e] w0]; simpl in Hw; subst w0; [|done].
  destruct (write_snippets_frame out_folder 0 l w) as [Hd Hf].
  split; [|done]. apply Hf. intros i. by apply snap_not_out_path.
Qed.

(** C5: a second run on what a first run left ends as the first one did
    and leaves every file and every directory as it found them; an output
    file written by a run that returned holds its snippet, whatever a file
    of that name held before. *)
Theorem c5_second_run (folder out_folder : string) (w : world) :
  let r1 := generate_files folder out_folder w in
  let r2 := generate_files folder out_folder (snd r1) in
  fst r2 = fst r1
  ∧ files (snd r2) = files (snd r1)
  ∧ dirs (snd r2) = dirs (snd r1)
  ∧ (fst r1 = Returned tt →
     ∀ i s,
       omap (snippet_of w) (traversal (snap_entries folder w)) !! i = Some s →
       files (snd r1) !! out_path out_folder i = Some s).
Proof.
  unfold generate_files, find_snaps, generate_from, mbind, M_bind.
  set (paths := traversal (snap_entries folder w)).
  pose proof (read_snippets_world paths [] w) as Hw.
  destruct (read_snippets paths [] w) as [[l|e] w0] eqn:Hr;
    simpl in Hw; subst w0.
  2:{ cbn [snd fst]. fold paths. rewrite Hr. done. }
  set (w1 := snd (write_snippets out_folder 0 l w)).
  pose proof (write_snippets_partial out_folder 0 l w) as Hf.
  destruct (write_snippets_frame out_folder 0 l w) as [Hd _].
  fold w1 in Hf, Hd.
  rewrite (snap_entries_emit folder out_folder 0 _ w w1 Hf Hd).
  fold paths.
  assert (read_snippets paths [] w1 = (Returned l, w1)) as ->.
  { pose proof (read_snippets_world paths [] w1) as Hw1.
    pose proof (read_snippets_ext paths [] w1 w Hd) as Hext.
    rewrite Hr in Hext.
    destruct (read_snippets paths [] w1) as [r w0]. simpl in *.
    subst w0. rewrite Hext; [done|].
    intros p [Hp _]%traversal_elem%snap_entries_elem.
    rewrite Hf. apply emit_files_miss.
    intros i _. by apply snap_not_out_path. }
  split.
  { apply write_snippets_ext; [done|]. rewrite Hf. apply emit_files_miss.
    intros i _ Heq. by apply (out_path_ne_folder out_folder (0 + i)). }
  split.
  { rewrite write_snippets_partial, Hd, Hf. apply emit_files_twice. }
  split; [by destruct (write_snippets_frame out_folder 0 l w1)|].
  intros Hret i s Hi.
  apply read_snippets_value in Hr. simpl in Hr. subst l.
  destruct (write_snippets out_folder 0 _ w) as [r w'] eqn:Hrun.
  simpl in Hret. subst r.
  apply write_snippets_files in Hrun as [Hf' _].
  subst w1. cbn [snd]. rewrite Hf'.
  by apply (emit_files_hit out_folder 0).
Qed.
End generate_files.

(** ** The claims on a small tree *)

Lemma c2_witness :
  ∃ w',
    generate_files "t" "in" demo_world = (Returned tt, w')
    ∧ length (omap (snippet_of demo_world) (traversal (snap_entries "t" demo_world))) = 2
    ∧ files w' !! out_path "in" 0 = Some "fn a"
    ∧ files w' !! "t/c.snap" = files demo_world !! "t/c.snap".
Proof.
  destruct (c2_output_files "t" "in" demo_world) as [Hret Hspec].
  destruct Hret as [w' Hw'].
  - apply (bool_decide_unpack _). vm_compute. exact I.
  - apply (bool_decide_unpack _). vm_compute. exact I.
  - apply (bool_decide_unpack _). vm_compute. exact I.
  - exists w'. split; [exact Hw'|].
    destruct (Hspec w' Hw') as (_ & _ & Hhit & Hmiss & _).
    split; [vm_compute; reflexivity|].
    split; [apply Hhit; vm_compute; reflexivity|].
    apply Hmiss. intros i _. apply snap_not_out_path. reflexivity.
Defined.

Lemma c4_witness :
  extract_snippet "source: x" = None
  ∧ ∀ paths1 p paths2 out_folder w,
      files w !! p = Some "source: x" → p ∉ dirs w →
      snippet_of w p = None
      ∧ generate_from (paths1 ++ p :: paths2) out_folder w
        = generate_from (paths1 ++ paths2) out_folder w.
Proof.
  apply (c4_no_field_no_output "source: x").
  apply first_match_None. vm_compute. reflexivity.
Defined.

Lemma c7_witness :
  files (snd (generate_files "t" "in" demo_world)) !! "t/a.snap"
  = files demo_world !! "t/a.snap"
  ∧ dirs (snd (generate_files "t" "in" demo_world)) = dirs demo_world.
Proof.
  apply (c7_reads_only "t" "in" "t/a.snap" demo_world).
  apply (bool_decide_unpack _). vm_compute. exact I.
Defined.

(** * Further properties of [extract_snippet] *)

Lemma extract_snippet_first_match (d : string) (g : string * string) :
  first_match d = Some g →
  extract_snippet d = Some (slice_0_m1 (cleaned (fst g))).
Proof.
  rewrite <- head_findall. unfold extract_snippet.
  destruct (findall d) as [|g0 gs]; [done|]. by intros [= ->].
Qed.

(** X1: the text before the first match is ignored: the snippet is the one of
    the text that begins at the first match, and is read off the line this
    text begins with. *)
Theorem x_text_before_match_ignored (pre s : string) :
  no_field_inside pre s → starts_field s →
  extract_snippet (pre +:+ s) = extract_snippet s
  ∧ extract_snippet s = Some (slice_0_m1 (cleaned (dot_star s))).
Proof.
  intros Hno Hs.
  destruct (match_at_starts _ Hs) as (kw & _ & Hm).
  assert (first_match s = Some (dot_star s, kw)) as H1.
  { rewrite <- Hm. apply (first_match_here "" s); [|done].
    intros p1 p2 Hp. by destruct p1, p2. }
  assert (first_match (pre +:+ s) = Some (dot_star s, kw)) as H2
    by by rewrite first_match_here.
  by rewrite (extract_snippet_first_match _ _ H1),
    (extract_snippet_first_match _ _ H2).
Qed.

Lemma x_text_before_match_ignored_witness :
  extract_snippet (("source: x" +:+ newline) +:+ label +:+ "fn a" +:+ quote)
  = extract_snippet (label +:+ "fn a" +:+ quote)
  ∧ extract_snippet (label +:+ "fn a" +:+ quote)
    = Some (slice_0_m1 (cleaned (dot_star (label +:+ "fn a" +:+ quote)))).
Proof.
  apply (x_text_before_match_ignored ("source: x" +:+ newline)
           (label +:+ "fn a" +:+ quote)).
  - apply no_match_inside_true. vm_compute. reflexivity.
  - exists "fn", (" a" +:+ quote). split; [by right; left | reflexivity].
Defined.

(** ** Lengths *)

(** A replacement by a text that is not longer does not lengthen, and the
    characters passed over are lost. *)
Lemma replace_from_length (k : nat) (old new s : string) :
  old ≠ "" → String.length new ≤ String.length old →
  String.length (replace_from k old new s) + k `min` String.length s
  ≤ String.length s.
Proof.
  intros Hold Hnew. revert k. induction s as [|c s IH]; intros k.
  - simpl. lia.
  - destruct k as [|k]; cbn [replace_from].
    + destruct (starts_with old (String c s)) eqn:Hs.
      * apply starts_with_length in Hs.
        specialize (IH (String.length old - 1)).
        rewrite str_app_length. cbn [String.length] in *.
        destruct old; [done|]. cbn [String.length] in *. lia.
      * specialize (IH 0). cbn [String.length]. lia.
    + specialize (IH k). cbn [String.length]. lia.
Qed.

Lemma replace_length (old new s : string) :
  old ≠ "" → String.length new ≤ String.length old →
  String.length (replace old new s) ≤ String.length s.
Proof.
  intros Hold Hnew.
  pose proof (replace_from_length 0 old new s Hold Hnew). unfold replace. lia.
Qed.

Lemma slice_0_m1_length (s : string) :
  String.length (slice_0_m1 s) = String.length s - 1.
Proof.
  induction s as [|c s IH]; [done|].
  destruct s as [|d s]; [done|].
  change (slice_0_m1 (String c (String d s)))
    with (String c (slice_0_m1 (String d s))).
  cbn [String.length] in *. lia.
Qed.

(** X2: the snippet is shorter than the text it comes from by fourteen
    characters at least: the label and the character the slice drops. *)
Theorem x_snippet_length (data r : string) :
  extract_snippet data = Some r →
  String.length r + 14 ≤ String.length data.
Proof.
  unfold extract_snippet.
  destruct (findall data) as [|g gs] eqn:Hf; [done|].
  destruct (findall_cons _ _ _ Hf) as (pre & post & Hd & _ & Hm & _ & _).
  destruct (match_at_Some _ _ Hm) as (kw & r0 & Hkw & Heq & Hg).
  destruct g as [m k]. cbn [fst] in *. injection Hg as Hfst _.
  rewrite Heq in Hfst.
  rewrite dot_star_no_lf in Hfst by apply label_no_lf.
  intros [= <-].
  assert (String.length data = String.length pre + String.length m
                               + String.length post) as Hlen.
  { rewrite Hd, !str_app_length. lia. }
  rewrite slice_0_m1_length.
  assert (String.length (cleaned m) + 13 ≤ String.length m) as Hc.
  { rewrite Hfst. unfold cleaned.
    rewrite replace_head by apply label_nonempty.
    change ("" +:+ ?t) with t.
    rewrite str_app_length.
    etrans; [apply Nat.add_le_mono_r, replace_length; [done | simpl; lia]|].
    etrans; [apply Nat.add_le_mono_r, replace_length;
             [apply label_nonempty | simpl; lia]|].
    change (String.length label) with 13. lia. }
  assert (1 ≤ String.length (cleaned m)) as Hpos.
  { rewrite Hfst.
    rewrite (dot_star_no_lf kw) by by apply keywords_no_lf.
    destruct (cleaned_keyword kw (dot_star r0) Hkw) as (a & b & t & ->).
    simpl. lia. }
  lia.
Qed.

Lemma x_snippet_length_witness :
  String.length "fn a" + 14 ≤ String.length (label +:+ "fn a" +:+ quote).
Proof.
  apply (x_snippet_length (label +:+ "fn a" +:+ quote) "fn a").
  vm_compute. reflexivity.
Defined.

(** ** No escape is left *)

Lemma occursb_unescape (n : nat) (s : string) :
  String.length s ≤ n →
  occursb escaped_newline (unescape s) = false
  ∧ ∀ t, unescape s = String "n" t → ∃ t', s = String "n" t'.
Proof.
  revert s. induction n as [|n IH]; intros s Hn.
  { destruct s; [done | simpl in Hn; lia]. }
  destruct s as [|c s]; [done|].
  unfold unescape, replace. cbn [replace_from].
  destruct (starts_with escaped_newline (String c s)) eqn:Hs.
  - destruct s as [|d s]; [by rewrite starts_with_escape_short in Hs|].
    cbn [String.length escaped_newline Nat.sub replace_from].
    destruct (IH s) as [Ho _]; [simpl in Hn; lia|].
    split; [|done].
    change (newline +:+ ?t) with (String LF t).
    cbn [occursb starts_with escaped_newline]. exact Ho.
  - destruct (IH s) as [Ho Hh]; [simpl in Hn; lia|].
    split.
    + cbn [occursb]. fold (replace escaped_newline newline s).
      fold (unescape s). rewrite Ho, orb_false_r.
      cbn [starts_with escaped_newline].
      destruct (Ascii.eqb_spec "\" c) as [<-|]; [|done].
      cbn [andb].
      destruct (unescape s) as [|x t] eqn:Hu; [done|].
      destruct (Ascii.eqb_spec "n" x) as [<-|]; [|done].
      destruct (Hh t eq_refl) as [t' ->].
      by rewrite starts_with_escape in Hs.
    + intros t [= -> _]. by exists s.
Qed.

Lemma slice_0_m1_prefix (s : string) : ∃ t, s = slice_0_m1 s +:+ t.
Proof.
  induction s as [|c s [t IH]]; [by exists ""|].
  destruct s as [|d s]; [by exists (String c "")|].
  change (slice_0_m1 (String c (String d s)))
    with (String c (slice_0_m1 (String d s))).
  exists t.
  change (String c (slice_0_m1 (String d s)) +:+ t)
    with (String c (slice_0_m1 (String d s) +:+ t)).
  by rewrite <- IH.
Qed.

(** X3: every escaped newline is turned into a line feed: the snippet holds
    none, also where a backslash stood before one. *)
Theorem x_no_escape_left (data r : string) :
  extract_snippet data = Some r → ¬ occurs_in escaped_newline r.
Proof.
  unfold extract_snippet.
  destruct (findall data) as [|g gs]; [done|].
  intros [= <-] (a & b & Hab).
  destruct (slice_0_m1_prefix (cleaned (fst g))) as [t Ht].
  destruct (occursb_unescape _ (replace label "" (fst g)) (le_n _)) as [Ho _].
  apply occursb_false in Ho. apply Ho.
  exists a, (b +:+ t).
  change (unescape (replace label "" (fst g))) with (cleaned (fst g)).
  rewrite Ht at 1. by rewrite Hab, !str_app_assoc.
Qed.

Lemma x_no_escape_left_witness :
  ¬ occurs_in escaped_newline ("fn a\" +:+ newline +:+ "b").
Proof.
  apply (x_no_escape_left (label +:+ "fn a\\nb" +:+ quote)).
  vm_compute. reflexivity.
Defined.

(** ** The matches of a text *)

Lemma count_char_app (c : ascii) (a b : string) :
  count_char c (a +:+ b) = count_char c a + count_char c b.
Proof.
  induction a as [|x a IH]; [done|].
  change (String x a +:+ b) with (String x (a +:+ b)).
  cbn [count_char]. rewrite IH. lia.
Qed.

Lemma findall_lf (t : string) : findall (String LF t) = findall t.
Proof. reflexivity. Qed.

(** X4: a match takes the rest of its line, so that a text has one match per
    line at most. *)
Theorem x_one_match_per_line (data : string) :
  length (findall data) ≤ S (count_char LF data).
Proof.
  remember (String.length data) as n eqn:Hn. revert data Hn.
  induction (lt_wf n) as [n _ IH]. intros data ->.
  destruct (findall data) as [|g gs] eqn:Hf; [simpl; lia|].
  destruct (findall_cons _ _ _ Hf) as (pre & post & Hd & _ & _ & Hpost & ->).
  destruct Hpost as [->|[t ->]]; [simpl; lia|].
  rewrite findall_lf. rewrite Hd, !count_char_app.
  cbn [length count_char]. rewrite Ascii.eqb_refl.
  specialize (IH (String.length t)).
  assert (String.length t < String.length data) as Hlt.
  { rewrite Hd, !str_app_length. simpl. lia. }
  specialize (IH Hlt t eq_refl). lia.
Qed.

(** Where in the subject an element of the list was found. *)
Lemma findall_from_elem_at (k : nat) (s : string) (g : string * string) :
  g ∈ findall_from k s → ∃ pre t, s = pre +:+ t ∧ match_at t = Some g.
Proof.
  revert k. induction s as [|c s IH]; intros k; [by intros ?%elem_of_nil|].
  assert (∀ k', g ∈ findall_from k' s →
            ∃ pre t, String c s = pre +:+ t ∧ match_at t = Some g) as Hnext.
  { intros k' (pre & t & -> & Hm)%IH. by exists (String c pre), t. }
  destruct k as [|k]; cbn [findall_from]; [|by apply Hnext].
  destruct (match_at (String c s)) as [g0|] eqn:Hm; [|by apply Hnext].
  intros [->|Hin]%elem_of_cons; [by exists "", (String c s) | by eapply Hnext].
Qed.

(** X5: every match begins with the label and a keyword, which is its second
    group, and stands in the subject as it is. *)
Theorem x_matches_shape (data : string) (g : string * string) :
  g ∈ findall data →
  snd g ∈ keywords
  ∧ (∃ rest, fst g = label +:+ snd g +:+ rest)
  ∧ occurs_in (fst g) data.
Proof.
  intros (pre & t & -> & Hm)%findall_from_elem_at.
  destruct (match_at_Some _ _ Hm) as (kw & r & Hkw & Heq & ->).
  cbn [fst snd]. split; [done|]. split.
  - exists (dot_star r). rewrite Heq.
    rewrite dot_star_no_lf by apply label_no_lf.
    by rewrite dot_star_no_lf by by apply keywords_no_lf.
  - destruct (dot_star_split t) as (post & Hsplit & _).
    exists pre, post. by rewrite <- Hsplit.
Qed.

Lemma x_matches_shape_witness :
  snd (label +:+ "fn a", "fn") ∈ keywords
  ∧ (∃ rest, fst (label +:+ "fn a", "fn")
             = label +:+ snd (label +:+ "fn a", "fn") +:+ rest)
  ∧ occurs_in (fst (label +:+ "fn a", "fn"))
      ("x" +:+ newline +:+ label +:+ "fn a" +:+ newline +:+ "y").
Proof.
  apply (x_matches_shape
           ("x" +:+ newline +:+ label +:+ "fn a" +:+ newline +:+ "y")).
  vm_compute. left.
Defined.

(** * Further properties of [generate_files] *)

Lemma emit_files_is_Some (out_folder : string) (index : nat) (l : list string)
    (m : gmap string string) (p : string) :
  is_Some (m !! p) → is_Some (emit_files out_folder index l m !! p).
Proof.
  revert index m. induction l as [|s l IH]; intros index m Hp; [done|].
  cbn [emit_files]. apply IH. rewrite lookup_insert_is_Some.
  destruct (decide (out_path out_folder index = p)); auto.
Qed.

Lemma out_path_prefix (out_folder : string) (i : nat) :
  starts_with (out_folder +:+ "/") (out_path out_folder i) = true.
Proof.
  unfold out_path. rewrite <- str_app_assoc. apply starts_with_app.
Qed.

(** A directory met by the first loop stops it at once. *)
Lemma read_snippets_directory (paths acc : list string) (w : world) :
  (∀ p, p ∈ paths → is_Some (files w !! p) ∨ p ∈ dirs w) →
  (∃ d, d ∈ paths ∧ d ∈ dirs w) →
  ∃ q, q ∈ paths ∧ q ∈ dirs w
       ∧ read_snippets paths acc w = (Raised (IsADirectoryError q), w).
Proof.
  revert acc. induction paths as [|p paths IH]; intros acc Hall (d & Hd & Hdir).
  { by apply elem_of_nil in Hd. }
  cbn [read_snippets]. unfold mbind, M_bind, open_read.
  case_decide as Hp.
  - exists p. split; [by left | done].
  - destruct (Hall p) as [[data ->]|?]; [by left| |done].
    apply elem_of_cons in Hd as [->|Hd]; [done|].
    assert (∀ acc', ∃ q, q ∈ p :: paths ∧ q ∈ dirs w
              ∧ read_snippets paths acc' w = (Raised (IsADirectoryError q), w))
      as Hrest.
    { intros acc'. destruct (IH acc') as (q & Hq & Hqd & Hr).
      - intros p' Hp'. apply Hall. by right.
      - by exists d.
      - exists q. split; [by right | done]. }
    destruct (truthy (extract_snippet data)); apply Hrest.
Qed.

(** The text the second loop prints when it returns. *)
Lemma write_snippets_stdout (out_folder : string) (index : nat) (l : list string) (w w' : world) :
  write_snippets out_folder index l w = (Returned tt, w') →
  stdout w' = stdout w +:+ printed l.
Proof.
  revert index w. induction l as [|s l IH]; intros index w.
  - intros [= <-]. simpl. by rewrite str_app_nil_r.
  - cbn [write_snippets printed]. unfold_turn.
    case_decide; [done|]. case_decide; [|by case_decide].
    intros ->%IH. cbn [stdout]. by rewrite !str_app_assoc.
Qed.

(** The second loop stopped by a directory that bears an output name. *)
Lemma write_snippets_blocked (out_folder : string) (index k : nat) (l : list string) (w : world) :
  out_folder ∈ dirs w → k < length l →
  Forall (λ i, out_path out_folder i ∉ dirs w) (seq index k) →
  out_path out_folder (index + k) ∈ dirs w →
  fst (write_snippets out_folder index l w)
  = Raised (IsADirectoryError (out_path out_folder (index + k)))
  ∧ completed out_folder index l (dirs w) = k.
Proof.
  revert index k w. induction l as [|s l IH]; intros index k w Hout Hk Hfree Hdir.
  { simpl in Hk. lia. }
  cbn [write_snippets completed]. unfold_turn.
  destruct k as [|k].
  - rewrite Nat.add_0_r in *. by rewrite !(decide_True (P := _ ∈ _)) by done.
  - cbn [seq] in Hfree. apply Forall_cons in Hfree as [Hi Hfree].
    rewrite !decide_False by done. rewrite !decide_True by done.
    replace (index + S k) with (S index + k) in * by lia.
    match goal with
    | |- context [write_snippets out_folder (S index) l ?w0] =>
        destruct (IH (S index) k w0) as [Hr Hc]; try done
    end.
    { simpl in Hk. lia. }
    cbn [dirs] in Hc. split; [exact Hr|].
    rewrite decide_False by done. rewrite decide_True by done.
    by rewrite Hc.
Qed.

Lemma omap_all_None {A B : Type} (f : A → option B) (l : list A) :
  Forall (λ x, f x = None) l → omap f l = [].
Proof.
  induction 1 as [|x l Hx _ IH]; [done|].
  cbn [omap list_omap]. by rewrite Hx.
Qed.

Lemma snippet_of_nonempty (w : world) (p s : string) :
  snippet_of w p = Some s → s ≠ "".
Proof.
  unfold snippet_of. destruct (files w !! p) as [data|]; [|done].
  destruct (extract_snippet data) as [[|c t]|]; simpl; [done| |done].
  by intros [= <-].
Qed.

(** What the first output names hold once the snippets are written. *)
Lemma outputs_emit (out_folder : string) (l : list string) (w : world) (m : gmap string string) :
  files w = emit_files out_folder 0 l m →
  outputs out_folder (length l) w = Some <$> l.
Proof.
  intros Hf. apply list_eq. intros i. unfold outputs.
  rewrite !list_lookup_fmap.
  destruct (l !! i) as [s|] eqn:Hi.
  - rewrite lookup_seq_lt by by eapply lookup_lt_Some.
    simpl. f_equal. rewrite Hf. by apply (emit_files_hit out_folder 0).
  - rewrite lookup_seq_ge; [done|]. by apply lookup_ge_None.
Qed.

Section further_generate_files.
Context `{Platform}.

Lemma walk_readable (folder : string) (w : world) :
  Forall (λ p, p ∉ dirs w) (traversal (snap_entries folder w)) →
  Forall (λ p, (p ∉ dirs w) ∧ is_Some (files w !! p))
    (traversal (snap_entries folder w)).
Proof.
  rewrite !Forall_forall. intros Hfiles p Hp.
  specialize (Hfiles p Hp). split; [done|].
  by apply traversal_elem, snap_entries_elem in Hp as [_ [?|Hd]].
Qed.

(** The files of the world a run ends in, whatever its outcome. *)
Lemma generate_files_files (folder out_folder : string) (w : world) :
  ∃ l, files (snd (generate_files folder out_folder w))
       = emit_files out_folder 0 l (files w).
Proof.
  unfold generate_files, find_snaps, generate_from, mbind, M_bind.
  pose proof (read_snippets_world (traversal (snap_entries folder w)) [] w) as Hw.
  destruct (read_snippets _ [] w) as [[l|e] w0]; simpl in Hw; subst w0.
  - eexists. apply write_snippets_partial.
  - by exists [].
Qed.

(** X6: the walk yields directories as well: when a directory of the tree
    bears the name of a snapshot, the run raises on such a directory
    before it has written or printed anything. *)
Theorem x_snapshot_directory (folder out_folder d : string) (w : world) :
  d ∈ dirs w → is_snap folder d = true →
  ∃ q, q ∈ dirs w ∧ is_snap folder q = true
       ∧ generate_files folder out_folder w
         = (Raised (IsADirectoryError q), w).
Proof.
  intros Hd Hs.
  destruct (read_snippets_directory (traversal (snap_entries folder w)) [] w)
    as (q & Hq & Hqd & Hr).
  - intros p Hp. by apply traversal_elem, snap_entries_elem in Hp as [_ ?].
  - exists d. split; [|done]. apply traversal_elem.
    unfold snap_entries. rewrite elem_of_filter, elem_of_union. auto.
  - exists q. split; [done|]. split.
    + apply traversal_elem in Hq. unfold snap_entries in Hq.
      by apply elem_of_filter in Hq as [? _].
    + unfold generate_files, find_snaps, generate_from, mbind, M_bind.
      by rewrite Hr.
Qed.

(** X7: when no snapshot of the tree yields a snippet the run returns and
    leaves the world as it is, output folder or not. *)
Theorem x_nothing_to_write (folder out_folder : string) (w : world) :
  Forall (λ p, (p ∉ dirs w) ∧ snippet_of w p = None)
    (traversal (snap_entries folder w)) →
  generate_files folder out_folder w = (Returned tt, w).
Proof.
  intros Hall.
  unfold generate_files, find_snaps, generate_from, mbind, M_bind.
  rewrite read_snippets_returned.
  - rewrite omap_all_None; [done|].
    eapply Forall_impl; [exact Hall|]. by intros p [_ ?].
  - apply walk_readable. eapply Forall_impl; [exact Hall|]. by intros p [? _].
Qed.


(** X14: when a regular file stands in the place of the output folder, a
    run that has a snippet to write raises on the first output name as on
    a path through something that is not a directory: the first snippet is
    printed once and no file is created or changed. *)
Theorem x_out_folder_is_a_file (folder out_folder s : string) (l : list string) (w : world) :
  Forall (λ p, p ∉ dirs w) (traversal (snap_entries folder w)) →
  omap (snippet_of w) (traversal (snap_entries folder w)) = s :: l →
  out_folder ∉ dirs w →
  is_Some (files w !! out_folder) →
  out_path out_folder 0 ∉ dirs w →
  generate_files folder out_folder w
  = (Raised (NotADirectoryError (out_path out_folder 0)),
     World (files w) (dirs w) (stdout w +:+ s +:+ newline)).
Proof.
  intros Hfiles Hs Hout Hfile Hname.
  unfold generate_files, find_snaps, generate_from, mbind, M_bind.
  rewrite read_snippets_returned by by apply walk_readable.
  simpl app. rewrite Hs. cbn [write_snippets]. unfold_turn.
  rewrite !(decide_False (P := _ ∈ _)) by done.
  by rewrite decide_True by done.
Qed.

(** X9: a run that returns has printed every snippet twice, in the order of
    the walk, after what the standard output held. *)
Theorem x_printed_twice (folder out_folder : string) (w w' : world) :
  generate_files folder out_folder w = (Returned tt, w') →
  stdout w' = stdout w
              +:+ printed (omap (snippet_of w) (traversal (snap_entries folder w))).
Proof.
  unfold generate_files, find_snaps, generate_from, mbind, M_bind.
  pose proof (read_snippets_world (traversal (snap_entries folder w)) [] w) as Hw.
  destruct (read_snippets _ [] w) as [[l|e] w0] eqn:Hr;
    simpl in Hw; subst w0; [|done].
  apply read_snippets_value in Hr. simpl in Hr. subst l.
  apply write_snippets_stdout.
Qed.

(** X10: when a directory bears the output name of index [k] and the names
    before it are free, the run raises on that name; the first [k]
    snippets stay written and no other file is touched. *)
Theorem x_blocked_output_name (folder out_folder : string) (k : nat) (w : world) :
  let snippets := omap (snippet_of w) (traversal (snap_entries folder w)) in
  let r := generate_files folder out_folder w in
  Forall (λ p, p ∉ dirs w) (traversal (snap_entries folder w)) →
  out_folder ∈ dirs w →
  k < length snippets →
  Forall (λ i, out_path out_folder i ∉ dirs w) (seq 0 k) →
  out_path out_folder k ∈ dirs w →
  fst r = Raised (IsADirectoryError (out_path out_folder k))
  ∧ (∀ i s, i < k → snippets !! i = Some s →
       files (snd r) !! out_path out_folder i = Some s)
  ∧ (∀ p, (∀ i, i < k → p ≠ out_path out_folder i) →
       files (snd r) !! p = files w !! p).
Proof.
  intros snippets r Hfiles Hout Hk Hfree Hdir. subst r.
  unfold generate_files, find_snaps, generate_from, mbind, M_bind.
  rewrite read_snippets_returned by by apply walk_readable.
  simpl app. fold snippets.
  destruct (write_snippets_blocked out_folder 0 k snippets w) as [Hr Hc];
    try done.
  rewrite write_snippets_partial, Hc. split; [done|]. split.
  - intros i s Hi Hs. apply (emit_files_hit out_folder 0).
    by rewrite lookup_take_lt.
  - intros p Hp. apply emit_files_miss. intros i Hi.
    apply Hp. rewrite length_take in Hi. lia.
Qed.

(** X11: whatever its outcome, a run leaves the directories as they are, every
    file whose path does not begin with the output folder and a separator
    as it is, and every file that was there in place. *)
Theorem x_writes_in_out_folder_only (folder out_folder : string) (w : world) :
  let w' := snd (generate_files folder out_folder w) in
  dirs w' = dirs w
  ∧ (∀ p, starts_with (out_folder +:+ "/") p = false →
       files w' !! p = files w !! p)
  ∧ (∀ p, is_Some (files w !! p) → is_Some (files w' !! p)).
Proof.
  intros w'. subst w'.
  destruct (generate_files_files folder out_folder w) as [l Hl].
  split; [|split].
  - unfold generate_files, find_snaps, generate_from, mbind, M_bind.
    pose proof (read_snippets_world (traversal (snap_entries folder w)) [] w) as Hw.
    destruct (read_snippets _ [] w) as [[l0|e] w0]; simpl in Hw; subst w0;
      [|done].
    by destruct (write_snippets_frame out_folder 0 l0 w).
  - intros p Hp. rewrite Hl. apply emit_files_miss.
    intros i _ ->. by rewrite out_path_prefix in Hp.
  - intros p Hp. rewrite Hl. by apply emit_files_is_Some.
Qed.

(** X12: after a run that returns, the snippet of every snapshot of the tree is
    in one of the output files, and every output file holds the snippet of
    a snapshot of the tree, which is not empty. *)
Theorem x_outputs_are_the_snippets (folder out_folder : string) (w w' : world) :
  let snippets := omap (snippet_of w) (traversal (snap_entries folder w)) in
  generate_files folder out_folder w = (Returned tt, w') →
  (∀ p s, p ∈ snap_entries folder w → snippet_of w p = Some s →
     ∃ i, i < length snippets ∧ files w' !! out_path out_folder i = Some s)
  ∧ (∀ i, i < length snippets →
       ∃ p s, p ∈ snap_entries folder w ∧ snippet_of w p = Some s
              ∧ s ≠ "" ∧ files w' !! out_path out_folder i = Some s).
Proof.
  intros snippets.
  unfold generate_files, find_snaps, generate_from, mbind, M_bind.
  pose proof (read_snippets_world (traversal (snap_entries folder w)) [] w) as Hw.
  destruct (read_snippets _ [] w) as [[l|e] w0] eqn:Hr;
    simpl in Hw; subst w0; [|done].
  apply read_snippets_value in Hr. simpl in Hr. subst l. fold snippets.
  intros [Hf _]%write_snippets_files. rewrite Hf. split.
  - intros p s Hp Hs.
    assert (s ∈ snippets) as [i Hi]%list_elem_of_lookup_1.
    { apply list_elem_of_omap. exists p. split; [|done]. by apply traversal_elem. }
    exists i. split; [by eapply lookup_lt_Some|].
    by apply (emit_files_hit out_folder 0).
  - intros i [s Hi]%lookup_lt_is_Some_2.
    pose proof (list_elem_of_lookup_2 _ _ _ Hi) as (p & Hp & Hs)%list_elem_of_omap.
    exists p, s. split; [by apply traversal_elem|]. split; [done|].
    split; [by eapply snippet_of_nonempty|].
    by apply (emit_files_hit out_folder 0).
Qed.
End further_generate_files.

(** X13: the order of the walk decides which snippet gets which number and
    nothing else: on two platforms that agree on the trees, two runs that
    return have written the same texts under the same names, up to the
    order, and agree on every other file. *)
Theorem x_order_of_walk (P1 P2 : Platform) (folder out_folder : string) (w w1 w2 : world) :
  @under P1 = @under P2 →
  @generate_files P1 folder out_folder w = (Returned tt, w1) →
  @generate_files P2 folder out_folder w = (Returned tt, w2) →
  ∃ n,
    n = length (omap (snippet_of w) (@traversal P1 (@snap_entries P1 folder w)))
    ∧ outputs out_folder n w1 ≡ₚ outputs out_folder n w2
    ∧ ∀ p, (∀ i, i < n → p ≠ out_path out_folder i) →
        files w1 !! p = files w2 !! p.
Proof.
  intros Hu.
  assert (@snap_entries P2 folder w = @snap_entries P1 folder w) as HX.
  { unfold snap_entries, is_snap. by rewrite Hu. }
  unfold generate_files, find_snaps, generate_from, mbind, M_bind.
  rewrite HX. set (X := @snap_entries P1 folder w).
  pose proof (read_snippets_world (@traversal P1 X) [] w) as Hw1.
  pose proof (read_snippets_world (@traversal P2 X) [] w) as Hw2.
  destruct (read_snippets (@traversal P1 X) [] w) as [[l1|e1] w0] eqn:Hr1;
    simpl in Hw1; subst w0; [|done].
  destruct (read_snippets (@traversal P2 X) [] w) as [[l2|e2] w0] eqn:Hr2;
    simpl in Hw2; subst w0; [|done].
  apply read_snippets_value in Hr1, Hr2. simpl in Hr1, Hr2.
  intros [Hf1 _]%write_snippets_files [Hf2 _]%write_snippets_files.
  assert (l1 ≡ₚ l2) as Hperm.
  { subst l1 l2. apply omap_Permutation.
    by rewrite (@traversal_perm P1), (@traversal_perm P2). }
  exists (length l1). split; [by rewrite Hr1|]. split.
  - rewrite (outputs_emit out_folder l1 w1 (files w)) by done.
    rewrite (Permutation_length Hperm).
    rewrite (outputs_emit out_folder l2 w2 (files w)) by done.
    by apply fmap_Permutation.
  - intros p Hp. rewrite Hf1, Hf2.
    rewrite !emit_files_miss; [done| |done].
    intros i Hi. apply Hp. by rewrite (Permutation_length Hperm).
Qed.

(** ** The further properties on small trees *)

Lemma x_snapshot_directory_witness :
  ∃ q, q ∈ dirs snapdir_world ∧ is_snap "t" q = true
       ∧ generate_files "t" "in" snapdir_world
         = (Raised (IsADirectoryError q), snapdir_world).
Proof.
  apply (x_snapshot_directory "t" "in" "t/d.snap" snapdir_world).
  - apply (bool_decide_unpack _). vm_compute. exact I.
  - vm_compute. reflexivity.
Defined.

Lemma x_nothing_to_write_witness :
  generate_files "t" "in" quiet_world = (Returned tt, quiet_world).
Proof.
  apply (x_nothing_to_write "t" "in" quiet_world).
  apply (bool_decide_unpack _). vm_compute. exact I.
Defined.


Lemma x_out_folder_is_a_file_witness :
  generate_files "t" "in" file_for_folder_world
  = (Raised (NotADirectoryError (out_path "in" 0)),
     World (files file_for_folder_world) (dirs file_for_folder_world)
       (stdout file_for_folder_world +:+ "fn a" +:+ newline)).
Proof.
  apply (x_out_folder_is_a_file "t" "in" "fn a" [] file_for_folder_world).
  - apply (bool_decide_unpack _). vm_compute. exact I.
  - vm_compute. reflexivity.
  - apply (bool_decide_unpack _). vm_compute. exact I.
  - apply (bool_decide_unpack _). vm_compute. exact I.
  - apply (bool_decide_unpack _). vm_compute. exact I.
Defined.

Lemma x_printed_twice_witness :
  stdout (snd (generate_files "t" "in" demo_world))
  = stdout demo_world
    +:+ printed (omap (snippet_of demo_world)
                   (traversal (snap_entries "t" demo_world))).
Proof.
  apply (x_printed_twice "t" "in" demo_world).
  vm_compute. reflexivity.
Defined.

Lemma x_blocked_output_name_witness :
  fst (generate_files "t" "in" blocked_world)
  = Raised (IsADirectoryError (out_path "in" 1))
  ∧ (∀ i s, i < 1 →
       omap (snippet_of blocked_world)
         (traversal (snap_entries "t" blocked_world)) !! i = Some s →
       files (snd (generate_files "t" "in" blocked_world)) !! out_path "in" i
       = Some s)
  ∧ (∀ p, (∀ i, i < 1 → p ≠ out_path "in" i) →
       files (snd (generate_files "t" "in" blocked_world)) !! p
       = files blocked_world !! p).
Proof.
  apply (x_blocked_output_name "t" "in" 1 blocked_world).
  - apply (bool_decide_unpack _). vm_compute. exact I.
  - apply (bool_decide_unpack _). vm_compute. exact I.
  - vm_compute. lia.
  - apply (bool_decide_unpack _). vm_compute. exact I.
  - apply (bool_decide_unpack _). vm_compute. exact I.
Defined.

Lemma x_outputs_are_the_snippets_witness :
  (∀ p s, p ∈ snap_entries "t" demo_world → snippet_of demo_world p = Some s →
     ∃ i, i < length (omap (snippet_of demo_world)
                        (traversal (snap_entries "t" demo_world)))
          ∧ files (snd (generate_files "t" "in" demo_world)) !! out_path "in" i
            = Some s)
  ∧ (∀ i, i < length (omap (snippet_of demo_world)
                        (traversal (snap_entries "t" demo_world))) →
       ∃ p s, p ∈ snap_entries "t" demo_world
              ∧ snippet_of demo_world p = Some s ∧ s ≠ ""
              ∧ files (snd (generate_files "t" "in" demo_world)) !! out_path "in" i
                = Some s).
Proof.
  apply (x_outputs_are_the_snippets "t" "in" demo_world).
  vm_compute. reflexivity.
Defined.

Lemma x_order_of_walk_witness :
  ∃ n,
    n = length (omap (snippet_of demo_world)
                  (@traversal prefix_platform
                     (@snap_entries prefix_platform "t" demo_world)))
    ∧ outputs "in" n (snd (@generate_files prefix_platform "t" "in" demo_world))
      ≡ₚ outputs "in" n (snd (@generate_files reverse_platform "t" "in" demo_world))
    ∧ ∀ p, (∀ i, i < n → p ≠ out_path "in" i) →
        files (snd (@generate_files prefix_platform "t" "in" demo_world)) !! p
        = files (snd (@generate_files reverse_platform "t" "in" demo_world)) !! p.
Proof.
  apply (x_order_of_walk prefix_platform reverse_platform "t" "in" demo_world).
  - reflexivity.
  - vm_compute. reflexivity.
  - vm_compute. reflexivity.
Defined.
